(** * mika: a BitTorrent tracker -- verification of the announce-path primitives

    A shallow embedding of the parts of the tracker that the specification
    makes checkable statements about:

    - [Store]: the fixed-width identifiers of [store/torrent.go]
      ([InfoHash], [PeerHash], the hex codec) and the white-list match;
    - [Tracker]: [peer.go] ([Peer.Update], [IsHNR], [makeCompactPeers],
      [IsValidClient]);
    - [PeerStore]: the redis-backed peer listing ([GetPeers], [makePeer]);
    - [Metrics]: the counters of [metrics/metrics.go] and their read-out;
    - [Torrents], [Users], [Admin]: the torrent and user records and the
      admin handlers that add and update torrents.

    Go's fixed-width integers are integers of [Z] with the wrap-around
    written out; [float64] is the primitive binary64 type; Go strings are
    [string]s (sequences of 8-bit characters); byte slices are [list byte],
    the nil slice being the empty list. *)

From Stdlib Require Import String Ascii.
From Stdlib Require Import ZArith NArith List Bool Lia.
From Stdlib Require Import Init.Byte Strings.Byte.
From Stdlib Require Import Floats.
From Stdlib Require Import DecimalString DecimalN.
Import ListNotations.

Local Open Scope Z_scope.

(** ** Machine integers *)

Module Int.

Definition two64 : Z := 2 ^ 64.
Definition two32 : Z := 2 ^ 32.

(** Wrap-around of the unsigned types. *)
Definition u64 (z : Z) : Z := z mod two64.
Definition u32 (z : Z) : Z := z mod two32.

(** Wrap-around of the signed types (two's complement). *)
Definition i32 (z : Z) : Z := (z + 2 ^ 31) mod two32 - 2 ^ 31.
Definition i64 (z : Z) : Z := (z + 2 ^ 63) mod two64 - 2 ^ 63.

Definition is_u64 (z : Z) : Prop := 0 <= z < two64.
Definition is_u32 (z : Z) : Prop := 0 <= z < two32.
Definition is_i32 (z : Z) : Prop := - 2 ^ 31 <= z < 2 ^ 31.
Definition is_i64 (z : Z) : Prop := - 2 ^ 63 <= z < 2 ^ 63.

(** The conversion [byte(x)] of an unsigned integer: its low eight bits. *)
Definition to_byte (z : Z) : byte :=
  match Byte.of_N (Z.to_N (z mod 256)) with
  | Some b => b
  | None => x00
  end.

End Int.

(** ** Slices and strings *)

(** [copy(dst, src)]: the first [min (len dst) (len src)] elements of [dst]
    are overwritten by those of [src]; the value is the new contents of
    [dst]. *)
Definition copy {A : Type} (dst src : list A) : list A :=
  firstn (length dst) src ++ skipn (length src) dst.

Module Strings.

(** [strings.HasPrefix(s, prefix)] is
    [len(s) >= len(prefix) && s[0:len(prefix)] == prefix]. *)
Definition HasPrefix (s prefix : string) : bool :=
  (String.length prefix <=? String.length s)%nat
  && String.eqb (substring 0 (String.length prefix) s) prefix.

(** [prefix] is a string prefix of [s]: [s] is [prefix] followed by some
    rest. *)
Definition is_prefix_of (prefix s : string) : Prop :=
  exists rest : string, s = (prefix ++ rest)%string.

(** All characters of a string satisfy a test. *)
Fixpoint all_chars (f : ascii -> bool) (s : string) : bool :=
  match s with
  | EmptyString => true
  | String c r => f c && all_chars f r
  end.

(** Membership of a character in a string. *)
Fixpoint mem_char (c : ascii) (s : string) : bool :=
  match s with
  | EmptyString => false
  | String d r => Ascii.eqb c d || mem_char c r
  end.

(** [strings.ToLower] on a text of ASCII characters: the letters [A] to
    [Z] are replaced by the small ones. *)
Definition lower (c : ascii) : ascii :=
  let n := N_of_ascii c in
  if ((65 <=? n) && (n <=? 90))%N then ascii_of_N (n + 32) else c.

Fixpoint ToLower (s : string) : string :=
  match s with
  | EmptyString => EmptyString
  | String c r => String (lower c) (ToLower r)
  end.

End Strings.

(** ** encoding/hex and the [%x] verb *)

Module Hex.

Inductive error : Type :=
| ErrLength
| InvalidByteError (c : ascii).

(** [fromHexChar]: the value of a hexadecimal digit, of either case. *)
Definition fromHexChar (c : ascii) : option N :=
  let n := N_of_ascii c in
  if ((48 <=? n) && (n <=? 57))%N then Some (n - 48)%N
  else if ((97 <=? n) && (n <=? 102))%N then Some (n - 97 + 10)%N
  else if ((65 <=? n) && (n <=? 70))%N then Some (n - 65 + 10)%N
  else None.

(** The byte [(a << 4) | b]. *)
Definition join (a b : N) : byte :=
  Int.to_byte (Z.of_N (N.lor (N.shiftl a 4) b)).

(** [hex.Decode]: two digits make a byte; the first character that is not a
    digit is reported; an odd length is reported once the digits before are
    read. *)
Fixpoint Decode (src : string) : list byte + error :=
  match src with
  | EmptyString => inl []
  | String c1 EmptyString =>
      match fromHexChar c1 with
      | None => inr (InvalidByteError c1)
      | Some _ => inr ErrLength
      end
  | String c1 (String c2 rest) =>
      match fromHexChar c1 with
      | None => inr (InvalidByteError c1)
      | Some a =>
          match fromHexChar c2 with
          | None => inr (InvalidByteError c2)
          | Some b =>
              match Decode rest with
              | inl bs => inl (join a b :: bs)
              | inr e => inr e
              end
          end
      end
  end.

(** [hex.DecodeString]; the callers here drop the bytes decoded before an
    error. *)
Definition DecodeString (s : string) : list byte + error := Decode s.

(** The lower-case digits of package [fmt]. *)
Definition ldigits : string := "0123456789abcdef".

Definition digit (n : N) : ascii :=
  match String.get (N.to_nat n) ldigits with
  | Some c => c
  | None => "0"%char
  end.

(** [fmt.Sprintf("%x", b)] for a byte slice [b]: two lower-case digits for
    each byte, [digits[c>>4]] then [digits[c&0xF]]. *)
Fixpoint Sprintf_x (b : list byte) : string :=
  match b with
  | [] => EmptyString
  | c :: r =>
      String (digit (N.shiftr (Byte.to_N c) 4))
        (String (digit (N.land (Byte.to_N c) 15)) (Sprintf_x r))
  end.

(** A hexadecimal digit, as the specification's "valid hexadecimal
    string" reads. *)
Definition is_hex_digit (c : ascii) : bool :=
  Strings.mem_char c "0123456789abcdefABCDEF".

Definition is_hex_string (s : string) : bool :=
  Strings.all_chars is_hex_digit s.

End Hex.

(** ** package fmt: the verbs the tracker's keys are made with *)

Module Fmt.

(** [%d] of an unsigned integer: its decimal digits. *)
Definition d (n : Z) : string :=
  NilEmpty.string_of_uint (N.to_uint (Z.to_N n)).

(** [%s] of a [uint64] operand: the verb does not fit the operand, and
    [fmt] writes [%!s(uint64=N)] in its place. *)
Definition bad_s_uint64 (n : Z) : string :=
  ("%!s(uint64=" ++ d n ++ ")")%string.

End Fmt.

(** ** store/torrent.go: identifiers and the white list *)

Module Store.

(** [type InfoHash [20]byte], [type PeerID [20]byte],
    [type PeerHash [40]byte]: an array is a list together with its
    length. *)
Definition InfoHash := list byte.
Definition PeerID := list byte.
Definition PeerHash := list byte.

Definition wf_InfoHash (ih : InfoHash) : Prop := length ih = 20%nat.
Definition wf_PeerID (pid : PeerID) : Prop := length pid = 20%nat.
Definition wf_PeerHash (ph : PeerHash) : Prop := length ph = 40%nat.

(** [ih.Bytes()] is [ih[:]]; likewise for a peer id. *)
Definition InfoHash_Bytes (ih : InfoHash) : list byte := ih.
Definition PeerID_Bytes (pid : PeerID) : list byte := pid.

(** The zero value of [[n]byte]. *)
Definition zeros (n : nat) : list byte := repeat x00 n.

Definition NewPeerHash (ih : InfoHash) (pid : PeerID) : PeerHash :=
  let buf := zeros 40 in
  (* copy(buf[0:20], ih.Bytes()) *)
  let buf := copy (firstn 20 buf) (InfoHash_Bytes ih) ++ skipn 20 buf in
  (* copy(buf[20:], pid.Bytes()) *)
  let buf := firstn 20 buf ++ copy (skipn 20 buf) (PeerID_Bytes pid) in
  buf.

Definition PeerHash_InfoHash (ph : PeerHash) : InfoHash :=
  copy (zeros 20) (firstn 20 ph).

Definition PeerHash_PeerID (ph : PeerHash) : PeerID :=
  copy (zeros 20) (skipn 20 ph).

Inductive error : Type :=
| ErrInvalidInfoHash
| ErrHex (e : Hex.error).

(** [InfoHashFromHex(infoHash *InfoHash, h string) error]: the value is the
    contents of [*infoHash] afterwards and the error, [None] for nil. *)
Definition InfoHashFromHex (infoHash : InfoHash) (h : string)
  : InfoHash * option error :=
  if negb (String.length h =? 40)%nat then (infoHash, Some ErrInvalidInfoHash)
  else
    match Hex.DecodeString h with
    | inr e => (infoHash, Some (ErrHex e))
    | inl b => (copy infoHash b, None)
    end.

(** [ih.String()] is [fmt.Sprintf("%x", ih[:])]. *)
Definition InfoHash_String (ih : InfoHash) : string := Hex.Sprintf_x ih.

Record WhiteListClient : Type := {
  ClientPrefix : string;
  ClientName : string
}.

Definition Match (wl : WhiteListClient) (client : string) : bool :=
  Strings.HasPrefix client (ClientPrefix wl).

(** [ph.String()] is [fmt.Sprintf("%x", ph[:])]. *)
Definition PeerHash_String (ph : PeerHash) : string := Hex.Sprintf_x ph.

(** [InfoHashFromString]: the bytes of the string are copied over the
    array; the error is always nil. *)
Definition InfoHashFromString (infoHash : InfoHash) (s : string)
  : InfoHash * option error :=
  (copy infoHash (list_byte_of_string s), None).

(** [PeerHashFromHex]: no length is asked of the text. *)
Definition PeerHashFromHex (peerHash : PeerHash) (h : string)
  : PeerHash * option error :=
  match Hex.DecodeString h with
  | inr e => (peerHash, Some (ErrHex e))
  | inl b => (copy peerHash b, None)
  end.

Definition InfoHashFromBytes (infoHash : InfoHash) (b : list byte)
  : InfoHash * option error :=
  (copy infoHash b, None).

(** A [driver.Value] or [interface{}] handed to [Scan]: a byte slice, or a
    value of another type. *)
Inductive Value : Type :=
| VBytes (b : list byte)
| VOther.

(** The two errors of [Scan]: the value is no byte slice; [cnt] bytes were
    copied where 20 were expected. *)
Inductive scan_error : Type :=
| ErrNotBytes
| ErrDataLength (cnt : nat).

Definition InfoHash_Value (ih : InfoHash) : Value * option error :=
  (VBytes (InfoHash_Bytes ih), None).

(** [ih.Scan(v)]: the bytes are copied before their number is looked at. *)
Definition InfoHash_Scan (ih : InfoHash) (v : Value)
  : InfoHash * option scan_error :=
  match v with
  | VOther => (ih, Some ErrNotBytes)
  | VBytes vt =>
      let cnt := Nat.min (length ih) (length vt) in
      let ih := copy ih vt in
      if negb (cnt =? 20)%nat then (ih, Some (ErrDataLength cnt))
      else (ih, None)
  end.

(** [ih.URLEncode()] is [fmt.Sprintf("%s", ih.Bytes())], the bytes as a
    string; [ih.RawString()] is [string(ih.Bytes())]. *)
Definition InfoHash_URLEncode (ih : InfoHash) : string :=
  string_of_list_byte (InfoHash_Bytes ih).

Definition InfoHash_RawString (ih : InfoHash) : string :=
  string_of_list_byte (InfoHash_Bytes ih).

End Store.

(** ** store/torrent.go: torrents *)

Module Torrents.

Record Torrent : Type := {
  InfoHash : Store.InfoHash;
  ReleaseName : string;
  Snatches : Z;
  Uploaded : Z;
  Downloaded : Z;
  IsDeleted : bool;
  IsEnabled : bool;
  Reason : string;
  MultiUp : float;
  MultiDn : float;
  Announces : Z;
  Seeders : Z;
  Leechers : Z
}.

(** The zero value of [Torrent]. *)
Definition zeroTorrent : Torrent :=
  {| InfoHash := Store.zeros 20; ReleaseName := ""; Snatches := 0;
     Uploaded := 0; Downloaded := 0; IsDeleted := false; IsEnabled := false;
     Reason := ""; MultiUp := 0%float; MultiDn := 0%float; Announces := 0;
     Seeders := 0; Leechers := 0 |}.

Definition NewTorrent (ih : Store.InfoHash) (name : string) : Torrent :=
  {| InfoHash := ih; ReleaseName := name; Snatches := 0;
     Uploaded := 0; Downloaded := 0; IsDeleted := false; IsEnabled := true;
     Reason := ""; MultiUp := 1%float; MultiDn := 1%float; Announces := 0;
     Seeders := 0; Leechers := 0 |}.

End Torrents.

Module TorrentUpdates.

Record TorrentUpdate : Type := {
  Keys : list string;
  ReleaseName : string;
  IsDeleted : bool;
  IsEnabled : bool;
  Reason : string;
  MultiUp : float;
  MultiDn : float
}.

End TorrentUpdates.

(** ** store: users *)

Module Users.

Record User : Type := {
  UserID : Z;
  Passkey : string;
  IsDeleted : bool;
  DownloadEnabled : bool;
  Downloaded : Z;
  Uploaded : Z;
  Announces : Z
}.

Definition Valid (u : User) : bool :=
  negb (String.eqb (Passkey u) "") && negb (IsDeleted u).

(** [users[i] == p]: all fields are equal. *)
Definition User_eqb (u p : User) : bool :=
  (UserID u =? UserID p) && String.eqb (Passkey u) (Passkey p)
  && Bool.eqb (IsDeleted u) (IsDeleted p)
  && Bool.eqb (DownloadEnabled u) (DownloadEnabled p)
  && (Downloaded u =? Downloaded p) && (Uploaded u =? Uploaded p)
  && (Announces u =? Announces p).

(** The loop [for i := len(users) - 1; i >= 0; i--] of [Remove], with [n]
    indices left to visit: index [n - 1] comes next. *)
Fixpoint Remove_below (n : nat) (users : list User) (p : User) : list User :=
  match n with
  | O => users
  | S i =>
      match nth_error users i with
      | Some u =>
          if User_eqb u p
          then firstn i users ++ skipn (S i) users
          else Remove_below i users p
      | None => users
      end
  end.

(** [users.Remove(p)]: the value is the slice returned (its elements are
    written over the array of [users]). *)
Definition Remove (users : list User) (p : User) : list User :=
  Remove_below (length users) users p.

End Users.

(** ** package net: textual addresses *)

Module Net.

Section Parsers.

(** The two text parsers of package [net], for the dotted-decimal and the
    colon-separated notation; each yields the address bytes, or nil. *)
Variable parseIPv4 : string -> list byte.
Variable parseIPv6 : string -> list byte.

(** [net.ParseIP]: the first ['.'] or [':'] of the text selects the parser;
    a text with neither is no address. *)
Fixpoint ParseIP_scan (s rest : string) : list byte :=
  match rest with
  | EmptyString => []
  | String c r =>
      if Ascii.eqb c "."%char then parseIPv4 s
      else if Ascii.eqb c ":"%char then parseIPv6 s
      else ParseIP_scan s r
  end.

Definition ParseIP (s : string) : list byte := ParseIP_scan s s.

End Parsers.

Definition isZeros (p : list byte) : bool := forallb (Byte.eqb x00) p.

(** [ip.To4()]: a 4-byte address as it is, the last four bytes of a 16-byte
    IPv4-mapped address, nil otherwise. *)
Definition To4 (ip : list byte) : list byte :=
  if (length ip =? 4)%nat then ip
  else if (length ip =? 16)%nat
          && isZeros (firstn 10 ip)
          && Byte.eqb (nth 10 ip x00) xff
          && Byte.eqb (nth 11 ip x00) xff
       then firstn 4 (skipn 12 ip)
       else [].

End Net.

(** ** peer.go *)

Module Tracker.

Record Config : Type := {
  AnnInterval : Z;
  HNRThreshold : Z
}.

Record Peer : Type := {
  InQueue : bool;
  SpeedUP : float;
  SpeedDN : float;
  SpeedUPMax : float;
  SpeedDNMax : float;
  Uploaded : Z;
  Downloaded : Z;
  Corrupt : Z;
  IP : string;
  Port : Z;
  Left : Z;
  Announces : Z;
  TotalTime : Z;
  AnnounceLast : Z;
  AnnounceFirst : Z;
  New : bool;
  PeerID : string;
  Active : bool;
  Username : string;
  UserID : Z;
  TorrentID : Z;
  KeyPeer : string;
  KeyUserActive : string;
  KeyUserIncomplete : string;
  KeyUserComplete : string;
  KeyUserHNR : string
}.

(** The fields are of the Go types [uint64] ([Uploaded], [Downloaded],
    [Corrupt], [Port], [Left], [Announces], [UserID], [TorrentID]),
    [uint32] ([TotalTime]) and [int32] (the two timestamps). *)
Definition wf_Peer (p : Peer) : Prop :=
  Int.is_u64 (Uploaded p) /\ Int.is_u64 (Downloaded p) /\
  Int.is_u64 (Corrupt p) /\ Int.is_u64 (Port p) /\ Int.is_u64 (Left p) /\
  Int.is_u64 (Announces p) /\ Int.is_u32 (TotalTime p) /\
  Int.is_i32 (AnnounceLast p) /\ Int.is_i32 (AnnounceFirst p) /\
  Int.is_u64 (UserID p) /\ Int.is_u64 (TorrentID p).

Module Ann.

(** Modelled from the spec: the declaration of [AnnounceRequest] is not
    among the sources; these are the fields [Update] reads, each of the type
    of the [Peer] field it is stored in ([IPv4] is a [net.IP]). *)
Record AnnounceRequest : Type := {
  PeerID : string;
  Uploaded : Z;
  Downloaded : Z;
  IPv4 : list byte;
  Port : Z;
  Corrupt : Z;
  Left : Z
}.

Definition wf (a : AnnounceRequest) : Prop :=
  Int.is_u64 (Uploaded a) /\ Int.is_u64 (Downloaded a) /\
  Int.is_u64 (Port a) /\ Int.is_u64 (Corrupt a) /\ Int.is_u64 (Left a).

End Ann.

Section Update.

(** The global configuration. *)
Variable config : Config.

(** The speed estimator [estSpeed(last, now, bytes)] and [net.IP]'s
    [String] are not among the sources and do not matter to the counters:
    they are parameters. *)
Variable estSpeed : Z -> Z -> Z -> float.
Variable IP_String : list byte -> string.

(** [Update]: [cur_time] and [now] are the two successive readings of
    [unixtime()]; the value is the peer afterwards and the pair
    [(ul, dl)]. *)
Definition Update (cur_time now : Z) (peer : Peer)
  (announce : Ann.AnnounceRequest) : Peer * (Z * Z) :=
  let announces := Int.u64 (Announces peer + 1) in
  let ul := Int.u64 (Ann.Uploaded announce - Uploaded peer) in
  let dl := Int.u64 (Ann.Downloaded announce - Downloaded peer) in
  let ul := if ul <? 0 then 0 else ul in
  let dl := if dl <? 0 then 0 else dl in
  let speed_up := estSpeed (AnnounceLast peer) cur_time ul in
  let speed_dn := estSpeed (AnnounceLast peer) cur_time dl in
  let speed_up_max :=
    if PrimFloat.ltb (SpeedUPMax peer) speed_up then speed_up
    else SpeedUPMax peer in
  let speed_dn_max :=
    if PrimFloat.ltb (SpeedDNMax peer) speed_dn then speed_dn
    else SpeedDNMax peer in
  let total_time :=
    (* Must be active to have a real time delta *)
    if Active peer && (AnnounceLast peer >? 0) then
      let time_diff := Int.u64 (Int.i32 (now - AnnounceLast peer)) in
      (* Ignore long periods of inactivity *)
      if time_diff <? Int.u64 (Int.u64 (AnnInterval config) * 4)
      then Int.u32 (TotalTime peer + Int.u32 time_diff)
      else TotalTime peer
    else TotalTime peer in
  ({| InQueue := InQueue peer;
      SpeedUP := speed_up;
      SpeedDN := speed_dn;
      SpeedUPMax := speed_up_max;
      SpeedDNMax := speed_dn_max;
      Uploaded := Ann.Uploaded announce;
      Downloaded := Ann.Downloaded announce;
      Corrupt := Ann.Corrupt announce;
      IP := IP_String (Ann.IPv4 announce);
      Port := Ann.Port announce;
      Left := Ann.Left announce;
      Announces := announces;
      TotalTime := total_time;
      AnnounceLast := AnnounceLast peer;
      AnnounceFirst := AnnounceFirst peer;
      New := New peer;
      PeerID := Ann.PeerID announce;
      Active := Active peer;
      Username := Username peer;
      UserID := UserID peer;
      TorrentID := TorrentID peer;
      KeyPeer := KeyPeer peer;
      KeyUserActive := KeyUserActive peer;
      KeyUserIncomplete := KeyUserIncomplete peer;
      KeyUserComplete := KeyUserComplete peer;
      KeyUserHNR := KeyUserHNR peer |},
   (ul, dl)).

(** A sequence of announces, each with its two clock readings, applied to
    one peer (the deltas are dropped). *)
Definition UpdateAll (peer : Peer)
  (announces : list (Z * Z * Ann.AnnounceRequest)) : Peer :=
  fold_left
    (fun p '(cur_time, now, announce) => fst (Update cur_time now p announce))
    announces peer.

(** The same, with the deltas that the announces yield added up. *)
Definition UpdateTotals (peer : Peer)
  (announces : list (Z * Z * Ann.AnnounceRequest)) : Peer * (Z * Z) :=
  fold_left
    (fun acc '(cur_time, now, announce) =>
       let r := Update cur_time now (fst acc) announce in
       (fst r, (fst (snd acc) + fst (snd r), snd (snd acc) + snd (snd r))))
    announces (peer, (0, 0)).

(** [IsHNR]; [now] is the reading of [unixtime()]. *)
Definition IsHNR (now : Z) (peer : Peer) : bool :=
  (Left peer >? 0)
  && (Int.i32 (AnnounceFirst peer - now) >? HNRThreshold config).

Definition IsSeeder (peer : Peer) : bool := Left peer =? 0.

End Update.

(** The totals that a sequence of announces reports never decrease, from
    [uploaded] and [downloaded] on. *)
Fixpoint reports_grow (uploaded downloaded : Z)
  (announces : list (Z * Z * Ann.AnnounceRequest)) : Prop :=
  match announces with
  | [] => True
  | (_, _, announce) :: rest =>
      Ann.wf announce
      /\ uploaded <= Ann.Uploaded announce
      /\ downloaded <= Ann.Downloaded announce
      /\ reports_grow (Ann.Uploaded announce) (Ann.Downloaded announce) rest
  end.

(** What the specification asks of [IsHNR], in its words: a leecher that
    has been in the swarm, since its first announce, for longer than the
    threshold. *)
Definition in_swarm_longer_than (threshold now : Z) (peer : Peer) : bool :=
  (Left peer >? 0) && (now - AnnounceFirst peer >? threshold).

Section CompactPeers.

Variable parseIPv4 : string -> list byte.
Variable parseIPv6 : string -> list byte.

(** One turn of the loop of [makeCompactPeers] on the buffer. *)
Definition writeCompactPeer (skip_id : string) (out_buf : list byte)
  (peer : Peer) : list byte :=
  if Port peer <=? 0 then out_buf
  else if String.eqb (PeerID peer) skip_id then out_buf
  else
    let out_buf :=
      out_buf ++ Net.To4 (Net.ParseIP parseIPv4 parseIPv6 (IP peer)) in
    out_buf ++ [Int.to_byte (Z.shiftr (Port peer) 8);
                Int.to_byte (Z.land (Port peer) 255)].

Definition makeCompactPeers (peers : list Peer) (skip_id : string)
  : list byte :=
  fold_left (writeCompactPeer skip_id) peers [].

(** The stored address of a peer is the text of an IPv4 address. *)
Definition has_IPv4 (peer : Peer) : bool :=
  (length (Net.To4 (Net.ParseIP parseIPv4 parseIPv6 (IP peer))) =? 4)%nat.

End CompactPeers.

(** A peer that the loop of [makeCompactPeers] writes: its port is set and
    it is not the requester. *)
Definition written (skip_id : string) (peer : Peer) : bool :=
  negb (Port peer <=? 0) && negb (String.eqb (PeerID peer) skip_id).

(** [IsValidClient]: [whitelist] is the global list of client prefixes. *)
Fixpoint IsValidClient (whitelist : list string) (peer_id : string) : bool :=
  match whitelist with
  | [] => false
  | client_prefix :: rest =>
      if Strings.HasPrefix peer_id client_prefix then true
      else IsValidClient rest peer_id
  end.

(** [SetUserID]: the user's id, name and the four redis keys made of the
    id. *)
Definition SetUserID (peer : Peer) (user_id : Z) (username : string) : Peer :=
  {| InQueue := InQueue peer;
     SpeedUP := SpeedUP peer; SpeedDN := SpeedDN peer;
     SpeedUPMax := SpeedUPMax peer; SpeedDNMax := SpeedDNMax peer;
     Uploaded := Uploaded peer; Downloaded := Downloaded peer;
     Corrupt := Corrupt peer; IP := IP peer; Port := Port peer;
     Left := Left peer; Announces := Announces peer;
     TotalTime := TotalTime peer; AnnounceLast := AnnounceLast peer;
     AnnounceFirst := AnnounceFirst peer; New := New peer;
     PeerID := PeerID peer; Active := Active peer;
     Username := username;
     UserID := user_id;
     TorrentID := TorrentID peer;
     KeyPeer := KeyPeer peer;
     KeyUserActive := ("t:u:" ++ Fmt.d user_id ++ ":active")%string;
     KeyUserIncomplete := ("t:u:" ++ Fmt.d user_id ++ ":incomplete")%string;
     KeyUserComplete := ("t:u:" ++ Fmt.d user_id ++ ":complete")%string;
     KeyUserHNR := ("t:u:" ++ Fmt.d user_id ++ ":hnr")%string |}.

Inductive error : Type :=
| err_parse_reply
| err_cast_reply.

(** A reply to [HGETALL], by what the redigo helpers make of it:
    [redis.Values] fails; or it yields nil; or it yields values that
    [redis.ScanStruct] fails on or scans into the peer.  [scan] is the effect
    of [ScanStruct] on the struct it is given. *)
Inductive Reply : Type :=
| ValuesError
| ValuesNil
| ScanError (scan : Peer -> Peer)
| ScanOk (scan : Peer -> Peer).

Definition set_PeerID (peer : Peer) (peer_id : string) : Peer :=
  {| InQueue := InQueue peer;
     SpeedUP := SpeedUP peer; SpeedDN := SpeedDN peer;
     SpeedUPMax := SpeedUPMax peer; SpeedDNMax := SpeedDNMax peer;
     Uploaded := Uploaded peer; Downloaded := Downloaded peer;
     Corrupt := Corrupt peer; IP := IP peer; Port := Port peer;
     Left := Left peer; Announces := Announces peer;
     TotalTime := TotalTime peer; AnnounceLast := AnnounceLast peer;
     AnnounceFirst := AnnounceFirst peer; New := New peer;
     PeerID := peer_id;
     Active := Active peer; Username := Username peer;
     UserID := UserID peer; TorrentID := TorrentID peer;
     KeyPeer := KeyPeer peer; KeyUserActive := KeyUserActive peer;
     KeyUserIncomplete := KeyUserIncomplete peer;
     KeyUserComplete := KeyUserComplete peer;
     KeyUserHNR := KeyUserHNR peer |}.

(** [makePeer]: [t_first] and [t_last] are the readings of [unixtime()]
    for the two timestamps of the default peer. *)
Definition makePeer (t_first t_last : Z) (redis_reply : Reply)
  (torrent_id : Z) (peer_id : string) : Peer * option error :=
  let peer :=
    {| InQueue := false;
       SpeedUP := 0%float; SpeedDN := 0%float;
       SpeedUPMax := 0%float; SpeedDNMax := 0%float;
       Uploaded := 0; Downloaded := 0; Corrupt := 0;
       IP := "127.0.0.1"; Port := 0; Left := 0; Announces := 0;
       TotalTime := 0; AnnounceLast := t_last; AnnounceFirst := t_first;
       New := false; PeerID := peer_id; Active := false; Username := "";
       UserID := 0; TorrentID := torrent_id;
       KeyPeer := ("t:t:" ++ Fmt.d torrent_id ++ ":" ++ peer_id)%string;
       KeyUserActive := ""; KeyUserIncomplete := ""; KeyUserComplete := "";
       KeyUserHNR := "" |} in
  match redis_reply with
  | ValuesError => (peer, Some err_parse_reply)
  | ValuesNil => (peer, None)
  | ScanError scan => (scan peer, Some err_cast_reply)
  | ScanOk scan => (set_PeerID (scan peer) peer_id, None)
  end.

End Tracker.

(** ** The redis-backed peer listing *)

Module PeerStore.

Record Peer : Type := {
  SpeedUP : float;
  SpeedDN : float;
  Uploaded : Z;
  Downloaded : Z;
  Corrupt : Z;
  IP : string;
  Port : Z;
  Left : Z;
  Announces : Z;
  TotalTime : Z;
  AnnounceLast : Z;
  AnnounceFirst : Z;
  New : bool;
  Active : bool;
  UserID : Z
}.

(** The zero value of [Peer], which [make([]Peer, n)] fills a slice with. *)
Definition zeroPeer : Peer :=
  {| SpeedUP := 0%float; SpeedDN := 0%float; Uploaded := 0; Downloaded := 0;
     Corrupt := 0; IP := ""; Port := 0; Left := 0; Announces := 0;
     TotalTime := 0; AnnounceLast := 0; AnnounceFirst := 0; New := false;
     Active := false; UserID := 0 |}.

Inductive error : Type :=
| err_parse_reply
| err_cast_reply.

(** A reply to [HGETALL], by what the redigo helpers make of it:
    [redis.Values] fails; or it yields nil; or it yields values that
    [redis.ScanStruct] fails on or scans into the peer.  [scan] is the effect
    of [ScanStruct] on the struct it is given. *)
Inductive Reply : Type :=
| ValuesError
| ValuesNil
| ScanError (scan : Peer -> Peer)
| ScanOk (scan : Peer -> Peer).

Definition set_known (peer : Peer) : Peer :=
  {| SpeedUP := SpeedUP peer; SpeedDN := SpeedDN peer;
     Uploaded := Uploaded peer; Downloaded := Downloaded peer;
     Corrupt := Corrupt peer; IP := IP peer; Port := Port peer;
     Left := Left peer;
     Announces := Int.u64 (Announces peer + 1);
     TotalTime := TotalTime peer; AnnounceLast := AnnounceLast peer;
     AnnounceFirst := AnnounceFirst peer;
     New := false;
     Active := Active peer; UserID := UserID peer |}.

(** [makePeer]: [t_first] and [t_last] are the readings of [unixtime()]
    for the two timestamps of the default peer. *)
Definition makePeer (t_first t_last : Z) (redis_reply : Reply)
  : Peer * option error :=
  let peer :=
    {| SpeedUP := 0%float; SpeedDN := 0%float; Uploaded := 0;
       Downloaded := 0; Corrupt := 0; IP := "127.0.0.1"; Port := 0;
       Left := 0; Announces := 0; TotalTime := 0;
       AnnounceLast := t_last; AnnounceFirst := t_first; New := true;
       Active := false; UserID := 0 |} in
  match redis_reply with
  | ValuesError => (peer, Some err_parse_reply)
  | ValuesNil => (peer, None)
  | ScanError scan => (scan peer, Some err_cast_reply)
  | ScanOk scan => (set_known (scan peer), None)
  end.

(** The reply to [SMEMBERS], by what [GetPeers] and [redis.Strings] make of
    it: [Do] fails; the reply is nil; [redis.Strings] fails; or the peer ids
    of the torrent. *)
Inductive MembersReply : Type :=
| DoError
| NilReply
| StringsError
| Members (peer_ids : list string).

(** What one [r.Receive()] yields. *)
Inductive Received : Type :=
| ReceiveError
| ReceiveOk (peer_reply : Reply).

Section GetPeers.

(** The successive readings of the clock, and the successive results of
    [r.Receive()]. *)
Variable unixtime : nat -> Z.
Variable Receive : nat -> Received.

(** The loop [for i := 1; i <= known_peers; i++]: [n] turns are left, [i]
    replies were received and [k] clock readings were made. *)
Fixpoint receivePeers (n i k : nat) (peers : list Peer) : list Peer :=
  match n with
  | O => peers
  | S n' =>
      match Receive i with
      | ReceiveError => receivePeers n' (S i) k peers
      | ReceiveOk peer_reply =>
          match makePeer (unixtime k) (unixtime (S k)) peer_reply with
          | (_, Some _) => receivePeers n' (S i) (S (S k)) peers
          | (peer, None) => receivePeers n' (S i) (S (S k)) (peers ++ [peer])
          end
      end
  end.

(** [GetPeers]: [None] is the run-time panic of a slice expression out of
    range; the nil slice is the empty list.  The commands sent to the
    connection are not part of the value. *)
Definition GetPeers (peers_reply : MembersReply) (max_peers : Z)
  : option (list Peer) :=
  match peers_reply with
  | DoError | NilReply => Some []
  | StringsError => Some []
  | Members peer_ids =>
      let known_peers := Z.of_nat (length peer_ids) in
      let known_peers :=
        if known_peers >? max_peers then max_peers else known_peers in
      (* peer_ids[0:known_peers] *)
      if known_peers <? 0 then None
      else
        let peers := repeat zeroPeer (Z.to_nat known_peers) in
        Some (receivePeers (Z.to_nat known_peers) 0 0 peers)
  end.

End GetPeers.

Section CompactPeers.

Variable parseIPv4 : string -> list byte.
Variable parseIPv6 : string -> list byte.

(** One turn of the loop of this file's [makeCompactPeers]. *)
Definition writeCompactPeer (out_buf : list byte) (peer : Peer)
  : list byte :=
  if Port peer <=? 0 then out_buf
  else
    let out_buf :=
      out_buf ++ Net.To4 (Net.ParseIP parseIPv4 parseIPv6 (IP peer)) in
    out_buf ++ [Int.to_byte (Z.shiftr (Port peer) 8);
                Int.to_byte (Z.land (Port peer) 255)].

Definition makeCompactPeers (peers : list Peer) : list byte :=
  fold_left writeCompactPeer peers [].

End CompactPeers.

(** The key of the set of a torrent's peer ids,
    [fmt.Sprintf("t:t:%d:p", torrent_id)], in [GetPeers] and [AddPeer]. *)
Definition peers_key (torrent_id : Z) : string :=
  ("t:t:" ++ Fmt.d torrent_id ++ ":p")%string.

(** The key [DelPeer] makes, [fmt.Sprintf("t:t:%s:p", torrent_id)], the
    operand being a [uint64]. *)
Definition DelPeer_key (torrent_id : Z) : string :=
  ("t:t:" ++ Fmt.bad_s_uint64 torrent_id ++ ":p")%string.

(** What [r.Do] yields: an error, or a reply. *)
Inductive DoResult : Type :=
| DoFails
| DoReplies (v : string).

Section Conn.

(** The connection: the result of [r.Do(command, args...)]. *)
Variable Do : string -> list string -> DoResult.

Definition AddPeer (torrent_id : Z) (peer_id : string) : bool :=
  match Do "SADD" [peers_key torrent_id; peer_id] with
  | DoFails => false
  | DoReplies _ => true
  end.

Definition DelPeer (torrent_id : Z) (peer_id : string) : bool :=
  match Do "SREM" [DelPeer_key torrent_id; peer_id] with
  | DoFails => false
  | DoReplies _ => true
  end.

End Conn.

End PeerStore.

(** ** metrics/metrics.go *)

Module Metrics.

(** The package-level counters ([int64]) and the list of announce times. *)
Record Counters : Type := {
  TorrentsTotalCached : Z;
  PeersTotalCached : Z;
  UsersTotalCached : Z;
  AnnounceTotal : Z;
  AnnounceStatusOK : Z;
  AnnounceStatusUnauthorized : Z;
  AnnounceStatusInvalidInfoHash : Z;
  AnnounceStatusMalformed : Z;
  AnnounceExecTimesNs : list Z
}.

(** The tracker's part of [RuntimeMetrics]; the other fields are copied
    from the Go run time's memory and collector statistics and touch no
    counter. *)
Record RuntimeMetrics : Type := {
  m_TorrentsTotalCached : Z;
  m_UsersTotalCached : Z;
  m_PeersTotalCached : Z;
  m_AnnounceTotal : Z;
  m_AnnounceStatusOK : Z;
  m_AnnounceStatusUnauthorized : Z;
  m_AnnounceStatusInvalidInfoHash : Z;
  m_AnnounceStatusMalformed : Z;
  m_AnnounceExecTimesNsAvg : Z
}.

Definition AddAnnounceTime (t : Z) (c : Counters) : Counters :=
  {| TorrentsTotalCached := TorrentsTotalCached c;
     PeersTotalCached := PeersTotalCached c;
     UsersTotalCached := UsersTotalCached c;
     AnnounceTotal := AnnounceTotal c;
     AnnounceStatusOK := AnnounceStatusOK c;
     AnnounceStatusUnauthorized := AnnounceStatusUnauthorized c;
     AnnounceStatusInvalidInfoHash := AnnounceStatusInvalidInfoHash c;
     AnnounceStatusMalformed := AnnounceStatusMalformed c;
     AnnounceExecTimesNs := AnnounceExecTimesNs c ++ [t] |}.

(** The sum of the times recorded, over the integers. *)
Definition sum_of_times (times : list Z) : Z := fold_right Z.add 0 times.

(** [avgExecTime]: the average (the quotient truncates) and the list
    afterwards, emptied when it had an element. *)
Definition avgExecTime (times : list Z) : Z * list Z :=
  let t := fold_left (fun t v => Int.i64 (t + v)) times 0 in
  let s := Z.of_nat (length times) in
  if s >? 0 then (Int.i64 (Z.quot t s), []) else (0, times).

(** [Get]: the snapshot and the counters afterwards; [atomic.LoadInt64]
    reads, [atomic.SwapInt64(&c, 0)] reads and stores zero. *)
Definition Get (c : Counters) : RuntimeMetrics * Counters :=
  let (avg, times) := avgExecTime (AnnounceExecTimesNs c) in
  ({| m_TorrentsTotalCached := TorrentsTotalCached c;
      m_UsersTotalCached := UsersTotalCached c;
      m_PeersTotalCached := PeersTotalCached c;
      m_AnnounceTotal := AnnounceTotal c;
      m_AnnounceStatusOK := AnnounceStatusOK c;
      m_AnnounceStatusUnauthorized := AnnounceStatusUnauthorized c;
      m_AnnounceStatusInvalidInfoHash := AnnounceStatusInvalidInfoHash c;
      m_AnnounceStatusMalformed := AnnounceStatusMalformed c;
      m_AnnounceExecTimesNsAvg := avg |},
   {| TorrentsTotalCached := TorrentsTotalCached c;
      PeersTotalCached := PeersTotalCached c;
      UsersTotalCached := UsersTotalCached c;
      AnnounceTotal := 0;
      AnnounceStatusOK := 0;
      AnnounceStatusUnauthorized := 0;
      AnnounceStatusInvalidInfoHash := 0;
      AnnounceStatusMalformed := 0;
      AnnounceExecTimesNs := times |}).

(** Modelled from the spec: the request path increments the announce
    counters; the handlers that do so are not among the sources.  An
    increment is [atomic.AddInt64(&c, 1)] on one of the five counters. *)
Inductive Counter : Type :=
| CAnnounceTotal
| CAnnounceStatusOK
| CAnnounceStatusUnauthorized
| CAnnounceStatusInvalidInfoHash
| CAnnounceStatusMalformed.

Definition bump (k : Counter) (which : Counter) (v : Z) : Z :=
  match k, which with
  | CAnnounceTotal, CAnnounceTotal
  | CAnnounceStatusOK, CAnnounceStatusOK
  | CAnnounceStatusUnauthorized, CAnnounceStatusUnauthorized
  | CAnnounceStatusInvalidInfoHash, CAnnounceStatusInvalidInfoHash
  | CAnnounceStatusMalformed, CAnnounceStatusMalformed => Int.i64 (v + 1)
  | _, _ => v
  end.

Definition increment (c : Counters) (k : Counter) : Counters :=
  {| TorrentsTotalCached := TorrentsTotalCached c;
     PeersTotalCached := PeersTotalCached c;
     UsersTotalCached := UsersTotalCached c;
     AnnounceTotal := bump k CAnnounceTotal (AnnounceTotal c);
     AnnounceStatusOK := bump k CAnnounceStatusOK (AnnounceStatusOK c);
     AnnounceStatusUnauthorized :=
       bump k CAnnounceStatusUnauthorized (AnnounceStatusUnauthorized c);
     AnnounceStatusInvalidInfoHash :=
       bump k CAnnounceStatusInvalidInfoHash (AnnounceStatusInvalidInfoHash c);
     AnnounceStatusMalformed :=
       bump k CAnnounceStatusMalformed (AnnounceStatusMalformed c);
     AnnounceExecTimesNs := AnnounceExecTimesNs c |}.

Definition increments (c : Counters) (ks : list Counter) : Counters :=
  fold_left increment ks c.



(** The counters at process start. *)
Definition start : Counters :=
  {| TorrentsTotalCached := 0; PeersTotalCached := 0; UsersTotalCached := 0;
     AnnounceTotal := 0; AnnounceStatusOK := 0;
     AnnounceStatusUnauthorized := 0; AnnounceStatusInvalidInfoHash := 0;
     AnnounceStatusMalformed := 0; AnnounceExecTimesNs := [] |}.

End Metrics.

(** ** The admin API: torrents *)

Module Admin.

Record TorrentAddRequest : Type := {
  Name : string;
  InfoHash : string;
  MultiUp : float;
  MultiDn : float
}.

(** What the torrent store answers to [Add]. *)
Inductive AddResult : Type :=
| Added
| ErrDuplicate
| AddFailed.

(** [torrentAdd]: [body] is what [c.BindJSON] makes of the request, [None]
    when it fails; [Add] is the torrent store.  The value is the status of
    the response and the torrent handed to the store, if any. *)
Definition torrentAdd (body : option TorrentAddRequest)
  (Add : Torrents.Torrent -> AddResult) : Z * option Torrents.Torrent :=
  match body with
  | None => (400, None)
  | Some req =>
      let t := Torrents.zeroTorrent in
      match Store.InfoHashFromHex (Store.zeros 20) (InfoHash req) with
      | (_, Some _) => (400, None)
      | (ih, None) =>
          let t :=
            {| Torrents.InfoHash := ih;
               Torrents.ReleaseName := Torrents.ReleaseName t;
               Torrents.Snatches := Torrents.Snatches t;
               Torrents.Uploaded := Torrents.Uploaded t;
               Torrents.Downloaded := Torrents.Downloaded t;
               Torrents.IsDeleted := Torrents.IsDeleted t;
               Torrents.IsEnabled := Torrents.IsEnabled t;
               Torrents.Reason := Torrents.Reason t;
               Torrents.MultiUp :=
                 if PrimFloat.ltb (MultiUp req) 0 then 0%float
                 else MultiUp req;
               Torrents.MultiDn :=
                 if PrimFloat.ltb (MultiDn req) 0 then 0%float
                 else MultiDn req;
               Torrents.Announces := Torrents.Announces t;
               Torrents.Seeders := Torrents.Seeders t;
               Torrents.Leechers := Torrents.Leechers t |} in
          match Add t with
          | ErrDuplicate => (409, Some t)
          | AddFailed => (400, Some t)
          | Added => (200, Some t)
          end
      end
  end.

(** One turn of the loop of [torrentUpdate] over the keys of the request:
    the [switch] on the key. *)
Definition updateKey (tup : TorrentUpdates.TorrentUpdate)
  (t : Torrents.Torrent) (k : string) : Torrents.Torrent :=
  {| Torrents.InfoHash := Torrents.InfoHash t;
     Torrents.ReleaseName := Torrents.ReleaseName t;
     Torrents.Snatches := Torrents.Snatches t;
     Torrents.Uploaded := Torrents.Uploaded t;
     Torrents.Downloaded := Torrents.Downloaded t;
     Torrents.IsDeleted :=
       if String.eqb k "is_deleted" then TorrentUpdates.IsDeleted tup
       else Torrents.IsDeleted t;
     Torrents.IsEnabled :=
       if String.eqb k "is_enabled" then TorrentUpdates.IsEnabled tup
       else Torrents.IsEnabled t;
     Torrents.Reason :=
       if String.eqb k "reason" then TorrentUpdates.Reason tup
       else Torrents.Reason t;
     Torrents.MultiUp :=
       if String.eqb k "multi_up" then TorrentUpdates.MultiUp tup
       else Torrents.MultiUp t;
     Torrents.MultiDn :=
       if String.eqb k "multi_dn" then TorrentUpdates.MultiDn tup
       else Torrents.MultiDn t;
     Torrents.Announces := Torrents.Announces t;
     Torrents.Seeders := Torrents.Seeders t;
     Torrents.Leechers := Torrents.Leechers t |}.

(** What the torrent store answers to [Get]. *)
Inductive GetResult : Type :=
| Got (t : Torrents.Torrent)
| ErrInvalidInfoHash
| GetFailed.

(** [infoHashFromCtx(&infoHash, c, true)]: [ihStr] is the parameter
    [info_hash] of the path.  The value is the info hash, if the text is one,
    and the status written to the response, if one is. *)
Definition infoHashFromCtx_hex (ihStr : string)
  : option Store.InfoHash * option Z :=
  if String.eqb ihStr "" then (None, Some 404)
  else
    match Store.InfoHashFromHex (Store.zeros 20) ihStr with
    | (_, Some _) => (None, None)
    | (ih, None) => (Some ih, None)
    end.

(** [torrentUpdate]: [Get] and [Update] are the torrent store ([Update]
    yields [true] for a nil error), [body] what [c.BindJSON] makes of the
    request.  The value is the status written to the response, if one is,
    and the torrent handed to [Update], if any. *)
Definition torrentUpdate (ihStr : string)
  (Get : Store.InfoHash -> GetResult)
  (body : option TorrentUpdates.TorrentUpdate)
  (Update : Torrents.Torrent -> bool) : option Z * option Torrents.Torrent :=
  match infoHashFromCtx_hex ihStr with
  | (None, status) => (status, None)
  | (Some ih, _) =>
      match Get ih with
      | ErrInvalidInfoHash => (Some 404, None)
      | GetFailed => (Some 500, None)
      | Got t =>
          match body with
          | None => (Some 400, None)
          | Some tup =>
              if (length (TorrentUpdates.Keys tup) =? 0)%nat
              then (Some 400, None)
              else
                let t := fold_left (updateKey tup) (TorrentUpdates.Keys tup) t
                in
                if Update t then (Some 200, Some t) else (Some 400, Some t)
          end
      end
  end.

End Admin.

(** ** Sample data *)

Module Samples.

(** The info hash [0x01..0x14] and the peer id [0x21..0x34]. *)
Definition H1 : Store.InfoHash :=
  [x01; x02; x03; x04; x05; x06; x07; x08; x09; x0a;
   x0b; x0c; x0d; x0e; x0f; x10; x11; x12; x13; x14].

Definition P1 : Store.PeerID :=
  [x21; x22; x23; x24; x25; x26; x27; x28; x29; x2a;
   x2b; x2c; x2d; x2e; x2f; x30; x31; x32; x33; x34].

(** Forty hexadecimal digits of both cases. *)
Definition hex40 : string := "0102030405060708090A0B0C0D0E0F1011121314".

(** An announce interval of 100 seconds, a threshold of one hour. *)
Definition config : Tracker.Config :=
  {| Tracker.AnnInterval := 100; Tracker.HNRThreshold := 3600 |}.

(** Stand-ins for the speed estimator and the address printer where an
    example needs the whole of [Update] to compute. *)
Definition estSpeed (last now bytes : Z) : float := 0%float.
Definition IP_String (ip : list byte) : string := "10.0.0.1".

(** An active leecher that first and last announced at time 1000, with 100
    bytes uploaded so far. *)
Definition leecher : Tracker.Peer :=
  {| Tracker.InQueue := false;
     Tracker.SpeedUP := 0%float; Tracker.SpeedDN := 0%float;
     Tracker.SpeedUPMax := 0%float; Tracker.SpeedDNMax := 0%float;
     Tracker.Uploaded := 100; Tracker.Downloaded := 0; Tracker.Corrupt := 0;
     Tracker.IP := "10.0.0.1"; Tracker.Port := 51413; Tracker.Left := 1000;
     Tracker.Announces := 1; Tracker.TotalTime := 0;
     Tracker.AnnounceLast := 1000; Tracker.AnnounceFirst := 1000;
     Tracker.New := false; Tracker.PeerID := "-UT3550-000000000001";
     Tracker.Active := true; Tracker.Username := "user";
     Tracker.UserID := 1; Tracker.TorrentID := 1;
     Tracker.KeyPeer := "t:t:1:-UT3550-000000000001";
     Tracker.KeyUserActive := "t:u:1:active";
     Tracker.KeyUserIncomplete := "t:u:1:incomplete";
     Tracker.KeyUserComplete := "t:u:1:complete";
     Tracker.KeyUserHNR := "t:u:1:hnr" |}.

(** Its client restarted: the announce reports 50 bytes uploaded. *)
Definition announce_reset : Tracker.Ann.AnnounceRequest :=
  {| Tracker.Ann.PeerID := "-UT3550-000000000001";
     Tracker.Ann.Uploaded := 50; Tracker.Ann.Downloaded := 0;
     Tracker.Ann.IPv4 := [x0a; x00; x00; x01];
     Tracker.Ann.Port := 51413; Tracker.Ann.Corrupt := 0;
     Tracker.Ann.Left := 1000 |}.

(** A peer whose stored address is the text of a nil [net.IP]. *)
Definition peer_without_address : Tracker.Peer :=
  {| Tracker.InQueue := false;
     Tracker.SpeedUP := 0%float; Tracker.SpeedDN := 0%float;
     Tracker.SpeedUPMax := 0%float; Tracker.SpeedDNMax := 0%float;
     Tracker.Uploaded := 0; Tracker.Downloaded := 0; Tracker.Corrupt := 0;
     Tracker.IP := "<nil>"; Tracker.Port := 6881; Tracker.Left := 0;
     Tracker.Announces := 1; Tracker.TotalTime := 0;
     Tracker.AnnounceLast := 1000; Tracker.AnnounceFirst := 1000;
     Tracker.New := false; Tracker.PeerID := "-UT3550-000000000002";
     Tracker.Active := true; Tracker.Username := "user";
     Tracker.UserID := 2; Tracker.TorrentID := 1;
     Tracker.KeyPeer := "t:t:1:-UT3550-000000000002";
     Tracker.KeyUserActive := "t:u:2:active";
     Tracker.KeyUserIncomplete := "t:u:2:incomplete";
     Tracker.KeyUserComplete := "t:u:2:complete";
     Tracker.KeyUserHNR := "t:u:2:hnr" |}.

(** A clock that stands at 1000, and a connection on which every
    [Receive] yields a hash without fields, which [ScanStruct] scans into
    the struct without changing it. *)
Definition unixtime (n : nat) : Z := 1000.
Definition Receive (n : nat) : PeerStore.Received :=
  PeerStore.ReceiveOk (PeerStore.ScanOk (fun peer => peer)).

(** Two announces counted, one of them successful. *)
Definition counted : Metrics.Counters :=
  Metrics.increments Metrics.start
    [Metrics.CAnnounceTotal; Metrics.CAnnounceStatusOK;
     Metrics.CAnnounceTotal].

(** Text parsers that know the one address of the samples. *)
Definition parseIPv4 (s : string) : list byte :=
  if String.eqb s "10.0.0.1" then [x0a; x00; x00; x01] else [].
Definition parseIPv6 (s : string) : list byte := [].

(** Three users, the first and the last being equal. *)
Definition alice : Users.User :=
  {| Users.UserID := 1; Users.Passkey := "aaaaaaaaaaaaaaaaaaaa";
     Users.IsDeleted := false; Users.DownloadEnabled := true;
     Users.Downloaded := 0; Users.Uploaded := 0; Users.Announces := 0 |}.

Definition bob : Users.User :=
  {| Users.UserID := 2; Users.Passkey := "bbbbbbbbbbbbbbbbbbbb";
     Users.IsDeleted := false; Users.DownloadEnabled := true;
     Users.Downloaded := 0; Users.Uploaded := 0; Users.Announces := 0 |}.

(** A torrent store that holds one torrent for every info hash and accepts
    every update, and a request to disable it with a reason. *)
Definition Get (ih : Store.InfoHash) : Admin.GetResult :=
  Admin.Got (Torrents.NewTorrent ih "release").
Definition Update (t : Torrents.Torrent) : bool := true.

Definition retire : TorrentUpdates.TorrentUpdate :=
  {| TorrentUpdates.Keys := ["is_enabled"; "reason"]%string;
     TorrentUpdates.ReleaseName := "renamed";
     TorrentUpdates.IsDeleted := true;
     TorrentUpdates.IsEnabled := false;
     TorrentUpdates.Reason := "retired";
     TorrentUpdates.MultiUp := 2%float;
     TorrentUpdates.MultiDn := 0%float |}.

Definition retired : Torrents.Torrent :=
  {| Torrents.InfoHash := H1; Torrents.ReleaseName := "release";
     Torrents.Snatches := 0; Torrents.Uploaded := 0;
     Torrents.Downloaded := 0; Torrents.IsDeleted := false;
     Torrents.IsEnabled := false; Torrents.Reason := "retired";
     Torrents.MultiUp := 1%float; Torrents.MultiDn := 1%float;
     Torrents.Announces := 0; Torrents.Seeders := 0;
     Torrents.Leechers := 0 |}.

(** An announce of the leecher a minute later, with more transferred. *)
Definition announce_more : Tracker.Ann.AnnounceRequest :=
  {| Tracker.Ann.PeerID := "-UT3550-000000000001";
     Tracker.Ann.Uploaded := 300; Tracker.Ann.Downloaded := 500;
     Tracker.Ann.IPv4 := [x0a; x00; x00; x01];
     Tracker.Ann.Port := 51413; Tracker.Ann.Corrupt := 0;
     Tracker.Ann.Left := 500 |}.

End Samples.

(** * Properties *)

(** ** Machine integers and slices *)

Lemma u64_range z : Int.is_u64 (Int.u64 z).
Proof. unfold Int.is_u64, Int.u64, Int.two64. apply Z.mod_pos_bound. lia. Qed.

Lemma u32_range z : Int.is_u32 (Int.u32 z).
Proof. unfold Int.is_u32, Int.u32, Int.two32. apply Z.mod_pos_bound. lia. Qed.

Lemma u64_id z : Int.is_u64 z -> Int.u64 z = z.
Proof. unfold Int.is_u64, Int.u64. intros H. now apply Z.mod_small. Qed.

Lemma u32_id z : Int.is_u32 z -> Int.u32 z = z.
Proof. unfold Int.is_u32, Int.u32. intros H. now apply Z.mod_small. Qed.

Lemma i32_id z : Int.is_i32 z -> Int.i32 z = z.
Proof.
  unfold Int.is_i32, Int.i32, Int.two32. intros H.
  rewrite Z.mod_small by lia. lia.
Qed.

Lemma copy_length {A : Type} (dst src : list A) :
  length (copy dst src) = length dst.
Proof.
  unfold copy. rewrite length_app, length_firstn, length_skipn. lia.
Qed.

Lemma copy_same_length {A : Type} (dst src : list A) :
  length src = length dst -> copy dst src = src.
Proof.
  intros H. unfold copy. rewrite <- H, firstn_all, H, skipn_all.
  apply app_nil_r.
Qed.

(** ** Peer hashes *)

Section PeerHash.

Import Store.

Variables (ih : InfoHash) (pid : PeerID).
Hypothesis ih_wf : length ih = 20%nat.
Hypothesis pid_wf : length pid = 20%nat.

Lemma firstn_20_app (tl : list byte) : firstn 20 (ih ++ tl) = ih.
Proof.
  rewrite firstn_app, ih_wf, Nat.sub_diag, firstn_O, app_nil_r.
  rewrite <- ih_wf. apply firstn_all.
Qed.

Lemma skipn_20_app (tl : list byte) : skipn 20 (ih ++ tl) = tl.
Proof.
  rewrite skipn_app, ih_wf, Nat.sub_diag, skipn_O.
  rewrite <- ih_wf, skipn_all. reflexivity.
Qed.

Lemma NewPeerHash_app : NewPeerHash ih pid = ih ++ pid.
Proof.
  unfold NewPeerHash, InfoHash_Bytes, PeerID_Bytes.
  rewrite (copy_same_length (firstn 20 (zeros 40)) ih) by (now rewrite ih_wf).
  rewrite firstn_20_app, skipn_20_app.
  f_equal. apply copy_same_length. now rewrite pid_wf.
Qed.

Lemma NewPeerHash_wf : wf_PeerHash (NewPeerHash ih pid).
Proof.
  unfold wf_PeerHash. rewrite NewPeerHash_app, length_app, ih_wf, pid_wf.
  reflexivity.
Qed.

Lemma PeerHash_InfoHash_New : PeerHash_InfoHash (NewPeerHash ih pid) = ih.
Proof.
  unfold PeerHash_InfoHash. rewrite NewPeerHash_app, firstn_20_app.
  apply copy_same_length. now rewrite ih_wf.
Qed.

Lemma PeerHash_PeerID_New : PeerHash_PeerID (NewPeerHash ih pid) = pid.
Proof.
  unfold PeerHash_PeerID. rewrite NewPeerHash_app, skipn_20_app.
  apply copy_same_length. now rewrite pid_wf.
Qed.

End PeerHash.

(** C10: for a 20-byte info hash [ih] and a 20-byte peer id [pid], the
    peer hash [NewPeerHash ih pid] projects back to its constituents:
    its [InfoHash()] is [ih] and its [PeerID()] is [pid]. *)
Theorem NewPeerHash_projections (ih : Store.InfoHash) (pid : Store.PeerID) :
  Store.wf_InfoHash ih -> Store.wf_PeerID pid ->
  Store.PeerHash_InfoHash (Store.NewPeerHash ih pid) = ih /\
  Store.PeerHash_PeerID (Store.NewPeerHash ih pid) = pid.
Proof.
  intros Hih Hpid. split.
  - now apply PeerHash_InfoHash_New.
  - now apply PeerHash_PeerID_New.
Qed.

Lemma PeerHash_of_H1_P1 :
  Store.PeerHash_InfoHash (Store.NewPeerHash Samples.H1 Samples.P1)
  = Samples.H1 /\
  Store.PeerHash_PeerID (Store.NewPeerHash Samples.H1 Samples.P1)
  = Samples.P1.
Proof.
  apply (NewPeerHash_projections Samples.H1 Samples.P1); reflexivity.
Defined.

(** ** The hex codec *)

Lemma fromHexChar_high (b : byte) :
  Hex.fromHexChar (Hex.digit (N.shiftr (Byte.to_N b) 4))
  = Some (N.shiftr (Byte.to_N b) 4).
Proof. destruct b; reflexivity. Qed.

Lemma fromHexChar_low (b : byte) :
  Hex.fromHexChar (Hex.digit (N.land (Byte.to_N b) 15))
  = Some (N.land (Byte.to_N b) 15).
Proof. destruct b; reflexivity. Qed.

Lemma join_nibbles (b : byte) :
  Hex.join (N.shiftr (Byte.to_N b) 4) (N.land (Byte.to_N b) 15) = b.
Proof. destruct b; reflexivity. Qed.

Lemma Decode_Sprintf_x (bs : list byte) :
  Hex.Decode (Hex.Sprintf_x bs) = inl bs.
Proof.
  induction bs as [|b bs IH].
  - reflexivity.
  - cbn [Hex.Sprintf_x Hex.Decode].
    rewrite fromHexChar_high, fromHexChar_low, join_nibbles, IH.
    reflexivity.
Qed.

Lemma Sprintf_x_length (bs : list byte) :
  String.length (Hex.Sprintf_x bs) = (2 * length bs)%nat.
Proof.
  induction bs as [|b bs IH]; cbn [Hex.Sprintf_x String.length length].
  - reflexivity.
  - rewrite IH. lia.
Qed.

Lemma is_hex_digit_value (c : ascii) :
  Hex.is_hex_digit c = true -> exists a, Hex.fromHexChar c = Some a.
Proof.
  destruct c as [[] [] [] [] [] [] [] []]; intros H;
    solve [ discriminate H | eexists; reflexivity ].
Qed.

Lemma Decode_hex_string (n : nat) :
  forall h : string,
    String.length h = (2 * n)%nat -> Hex.is_hex_string h = true ->
    exists bs, Hex.Decode h = inl bs /\ length bs = n.
Proof.
  induction n as [|n IH]; intros h Hlen Hhex.
  - destruct h; [|discriminate Hlen]. exists []. split; reflexivity.
  - destruct h as [|c1 [|c2 r]]; try (cbn in Hlen; lia).
    cbn [String.length] in Hlen.
    unfold Hex.is_hex_string in Hhex. cbn [Strings.all_chars] in Hhex.
    apply andb_true_iff in Hhex as [H1 Hhex].
    apply andb_true_iff in Hhex as [H2 Hr].
    destruct (is_hex_digit_value c1 H1) as [a Ha].
    destruct (is_hex_digit_value c2 H2) as [b Hb].
    destruct (IH r) as [bs [Hbs Hn]]; [lia | exact Hr |].
    exists (Hex.join a b :: bs). split.
    + cbn [Hex.Decode]. rewrite Ha, Hb, Hbs. reflexivity.
    + cbn [length]. now rewrite Hn.
Qed.

(** C9: for every 40-character string [h] of hexadecimal digits
    [InfoHashFromHex] succeeds (no error, and a 20-byte value), and for every
    info hash [ih], [InfoHashFromHex] applied to the lower-case base-16
    string [ih.String()] yields exactly [ih]. *)
Theorem InfoHashFromHex_String
  (infoHash ih : Store.InfoHash) (h : string) :
  Store.wf_InfoHash infoHash -> Store.wf_InfoHash ih ->
  String.length h = 40%nat -> Hex.is_hex_string h = true ->
  (exists ih', Store.InfoHashFromHex infoHash h = (ih', None)
               /\ Store.wf_InfoHash ih')
  /\ Store.InfoHashFromHex infoHash (Store.InfoHash_String ih) = (ih, None).
Proof.
  unfold Store.wf_InfoHash. intros Hdst Hih Hlen Hhex. split.
  - destruct (Decode_hex_string 20 h Hlen Hhex) as [bs [Hbs Hn]].
    exists (copy infoHash bs). unfold Store.InfoHashFromHex, Hex.DecodeString.
    rewrite Hlen, Hbs. cbn [Nat.eqb negb]. split.
    + reflexivity.
    + now rewrite copy_length.
  - unfold Store.InfoHashFromHex, Store.InfoHash_String, Hex.DecodeString.
    rewrite Sprintf_x_length, Hih, Decode_Sprintf_x.
    cbn [Nat.mul Nat.add Nat.eqb negb].
    rewrite copy_same_length by (now rewrite Hih, Hdst).
    reflexivity.
Qed.

Lemma InfoHash_H1_roundtrip :
  (exists ih', Store.InfoHashFromHex (Store.zeros 20) Samples.hex40
               = (ih', None) /\ Store.wf_InfoHash ih')
  /\ Store.InfoHashFromHex (Store.zeros 20) (Store.InfoHash_String Samples.H1)
     = (Samples.H1, None).
Proof.
  apply (InfoHashFromHex_String (Store.zeros 20) Samples.H1 Samples.hex40);
    reflexivity.
Defined.

(** The sample text decodes to the sample info hash. *)
Example InfoHashFromHex_hex40 :
  Store.InfoHashFromHex (Store.zeros 20) Samples.hex40 = (Samples.H1, None).
Proof. reflexivity. Qed.

(** Strings that are not forty hexadecimal digits are refused. *)
Example InfoHashFromHex_short :
  Store.InfoHashFromHex Samples.H1 "0102"
  = (Samples.H1, Some Store.ErrInvalidInfoHash).
Proof. reflexivity. Qed.

Example InfoHashFromHex_not_hex :
  Store.InfoHashFromHex Samples.H1 "01020304050607080910111213141516171819zz"
  = (Samples.H1, Some (Store.ErrHex (Hex.InvalidByteError "z"))).
Proof. reflexivity. Qed.

(** ** The white-list gate *)

Lemma HasPrefix_iff (prefix : string) :
  forall s : string,
    Strings.HasPrefix s prefix = true <-> Strings.is_prefix_of prefix s.
Proof.
  unfold Strings.HasPrefix, Strings.is_prefix_of.
  induction prefix as [|c p IH]; intros s.
  - split.
    + intros _. exists s. reflexivity.
    + intros _. destruct s; reflexivity.
  - destruct s as [|d s].
    + split; [discriminate | intros [rest H]; discriminate H].
    + cbn [String.length substring String.eqb Nat.leb].
      specialize (IH s). split.
      * intros H. apply andb_true_iff in H as [Hlen H].
        apply andb_true_iff in H as [Hc Hp].
        apply Ascii.eqb_eq in Hc. subst d.
        destruct IH as [IH _].
        destruct IH as [rest Hrest]; [now rewrite Hlen, Hp |].
        exists rest. cbn [String.append]. now rewrite <- Hrest.
      * intros [rest H]. cbn [String.append] in H.
        injection H as Hc Hs. subst d.
        destruct IH as [_ IH].
        assert (Hex : exists r, s = (p ++ r)%string) by (now exists rest).
        apply IH in Hex. apply andb_true_iff in Hex as [Hlen Hp].
        now rewrite Hlen, Ascii.eqb_refl, Hp.
Qed.

Lemma IsValidClient_existsb (whitelist : list string) (peer_id : string) :
  Tracker.IsValidClient whitelist peer_id
  = existsb (Strings.HasPrefix peer_id) whitelist.
Proof.
  induction whitelist as [|p wl IH]; cbn [Tracker.IsValidClient existsb].
  - reflexivity.
  - rewrite IH. now destruct (Strings.HasPrefix peer_id p).
Qed.

(** The gate over white-list entries agrees with the gate over their
    prefixes. *)
Lemma IsValidClient_Match (clients : list Store.WhiteListClient)
  (peer_id : string) :
  Tracker.IsValidClient (map Store.ClientPrefix clients) peer_id
  = existsb (fun wl => Store.Match wl peer_id) clients.
Proof.
  rewrite IsValidClient_existsb.
  induction clients as [|wl clients IH]; cbn [map existsb].
  - reflexivity.
  - now rewrite IH.
Qed.

(** C8: the white-list gate accepts a peer id if and only if some prefix of
    the white list is a string prefix of it ([IsValidClient] over the list of
    prefixes, [Match] for a single entry); with an empty white list every
    peer id is rejected. *)
Theorem IsValidClient_iff (whitelist : list string)
  (wl : Store.WhiteListClient) (peer_id : string) :
  (Tracker.IsValidClient whitelist peer_id = true
   <-> exists prefix, In prefix whitelist
                      /\ Strings.is_prefix_of prefix peer_id)
  /\ (Store.Match wl peer_id = true
      <-> Strings.is_prefix_of (Store.ClientPrefix wl) peer_id)
  /\ Tracker.IsValidClient [] peer_id = false.
Proof.
  split; [|split].
  - rewrite IsValidClient_existsb, existsb_exists.
    split; intros [p [Hin Hp]]; exists p; split; try assumption;
      now apply HasPrefix_iff.
  - unfold Store.Match. apply HasPrefix_iff.
  - reflexivity.
Qed.

(** ** Peer.Update *)

Lemma u64_not_negative (z : Z) : (Int.u64 z <? 0) = false.
Proof. apply Z.ltb_ge. apply u64_range. Qed.

Lemma u64_sub (a b : Z) :
  Int.is_u64 a -> Int.is_u64 b ->
  Int.u64 (a - b) = if a <? b then a - b + Int.two64 else a - b.
Proof.
  unfold Int.is_u64, Int.u64, Int.two64. intros Ha Hb.
  destruct (Z.ltb_spec a b) as [Hlt | Hge].
  - rewrite <- (Z.mod_add (a - b) 1 (2 ^ 64)) by lia.
    apply Z.mod_small. lia.
  - apply Z.mod_small. lia.
Qed.

Section UpdateFacts.

Import Tracker.

Variable config : Config.
Variable estSpeed : Z -> Z -> Z -> float.
Variable IP_String : list byte -> string.
Variables cur_time now : Z.
Variable peer : Peer.
Variable announce : Ann.AnnounceRequest.

Local Notation "'updated'" :=
  (fst (Update config estSpeed IP_String cur_time now peer announce)).
Local Notation "'deltas'" :=
  (snd (Update config estSpeed IP_String cur_time now peer announce)).

(** The test [ul < 0] on an unsigned value never holds: the deltas are the
    differences modulo [2^64]. *)
Lemma Update_deltas :
  deltas = (Int.u64 (Ann.Uploaded announce - Uploaded peer),
            Int.u64 (Ann.Downloaded announce - Downloaded peer)).
Proof.
  unfold Update. cbn [snd]. now rewrite !u64_not_negative.
Qed.

(** With counters that did not decrease the deltas are the differences. *)
Lemma Update_deltas_increasing :
  wf_Peer peer -> Ann.wf announce ->
  Uploaded peer <= Ann.Uploaded announce ->
  Downloaded peer <= Ann.Downloaded announce ->
  deltas = (Ann.Uploaded announce - Uploaded peer,
            Ann.Downloaded announce - Downloaded peer).
Proof.
  intros (Hu & Hd & _) (Hau & Had & _) Hul Hdl.
  rewrite Update_deltas, !u64_sub by assumption.
  apply Z.ltb_ge in Hul, Hdl. now rewrite Hul, Hdl.
Qed.

(** After a counter reset the upload delta is [2^64] minus the loss. *)
Lemma Update_deltas_reset :
  wf_Peer peer -> Ann.wf announce ->
  Ann.Uploaded announce < Uploaded peer ->
  fst deltas = Int.two64 - (Uploaded peer - Ann.Uploaded announce)
  /\ 0 < fst deltas.
Proof.
  intros (Hu & _) (Hau & _) Hlt.
  rewrite Update_deltas. cbn [fst]. rewrite u64_sub by assumption.
  apply Z.ltb_lt in Hlt as Hb. rewrite Hb.
  unfold Int.is_u64 in Hu, Hau. lia.
Qed.

Lemma Update_Uploaded : Uploaded updated = Ann.Uploaded announce.
Proof. reflexivity. Qed.

Lemma Update_Downloaded : Downloaded updated = Ann.Downloaded announce.
Proof. reflexivity. Qed.

Lemma Update_timestamps :
  AnnounceLast updated = AnnounceLast peer
  /\ AnnounceFirst updated = AnnounceFirst peer
  /\ Active updated = Active peer.
Proof. repeat split. Qed.

(** The time counter of an active peer, by the seconds since its last
    announce. *)
Lemma TotalTime_after_Update :
  Active peer = true -> 0 < AnnounceLast peer ->
  Int.is_i32 (AnnounceLast peer) -> 0 <= now < 2 ^ 31 ->
  0 <= AnnInterval config < 2 ^ 31 ->
  TotalTime updated
  = if (0 <=? now - AnnounceLast peer)
       && (now - AnnounceLast peer <? 4 * AnnInterval config)
    then Int.u32 (TotalTime peer + (now - AnnounceLast peer))
    else TotalTime peer.
Proof.
  intros Hact Hlast Hrange Hnow Hint.
  unfold Update. cbn [fst TotalTime].
  apply Z.gtb_lt in Hlast as Hpos. rewrite Hact, Hpos. cbn [andb].
  unfold Int.is_i32 in Hrange.
  rewrite (i32_id (now - AnnounceLast peer)) by (unfold Int.is_i32; lia).
  rewrite (u64_id (AnnInterval config))
    by (unfold Int.is_u64, Int.two64; lia).
  rewrite (u64_id (AnnInterval config * 4))
    by (unfold Int.is_u64, Int.two64; lia).
  destruct (Z.leb_spec 0 (now - AnnounceLast peer)) as [Hge | Hneg];
    cbn [andb].
  - rewrite (u64_id (now - AnnounceLast peer))
      by (unfold Int.is_u64, Int.two64; lia).
    rewrite (u32_id (now - AnnounceLast peer))
      by (unfold Int.is_u32, Int.two32; lia).
    now replace (AnnInterval config * 4) with (4 * AnnInterval config) by lia.
  - assert (Hwrap : Int.u64 (now - AnnounceLast peer)
                    = now - AnnounceLast peer + 2 ^ 64).
    { unfold Int.u64, Int.two64.
      rewrite <- (Z.mod_add (now - AnnounceLast peer) 1 (2 ^ 64)) by lia.
      apply Z.mod_small. lia. }
    rewrite Hwrap.
    destruct (Z.ltb_spec (now - AnnounceLast peer + 2 ^ 64)
                (AnnInterval config * 4)) as [Hlt | _]; [lia | reflexivity].
Qed.

End UpdateFacts.

(** C1: the deltas that [Update] returns are meant to be
    [max(0, announce.uploaded - peer.uploaded)] and likewise for the download.
    On the leecher with 100 bytes uploaded and the announce that reports 50,
    [Update] returns the upload delta [2^64 - 50] where the clamp gives 0:
    the subtraction is unsigned and the test [ul < 0] never holds. *)
Theorem Update_delta_after_reset
  (config : Tracker.Config) (estSpeed : Z -> Z -> Z -> float)
  (IP_String : list byte -> string) (cur_time now : Z) :
  snd (Tracker.Update config estSpeed IP_String cur_time now
         Samples.leecher Samples.announce_reset)
  = (18446744073709551566, 0)
  /\ Z.max 0 (Tracker.Ann.Uploaded Samples.announce_reset
              - Tracker.Uploaded Samples.leecher) = 0.
Proof. split; reflexivity. Qed.

(** Where no counter decreased, the deltas are the clamped differences. *)
Lemma Update_deltas_max
  (config : Tracker.Config) (estSpeed : Z -> Z -> Z -> float)
  (IP_String : list byte -> string) (cur_time now : Z)
  (peer : Tracker.Peer) (announce : Tracker.Ann.AnnounceRequest) :
  Tracker.wf_Peer peer -> Tracker.Ann.wf announce ->
  Tracker.Uploaded peer <= Tracker.Ann.Uploaded announce ->
  Tracker.Downloaded peer <= Tracker.Ann.Downloaded announce ->
  snd (Tracker.Update config estSpeed IP_String cur_time now peer announce)
  = (Z.max 0 (Tracker.Ann.Uploaded announce - Tracker.Uploaded peer),
     Z.max 0 (Tracker.Ann.Downloaded announce - Tracker.Downloaded peer)).
Proof.
  intros Hp Ha Hu Hd.
  rewrite Update_deltas_increasing by assumption.
  now rewrite !Z.max_r by lia.
Qed.

(** ** The stored counters *)

Lemma UpdateAll_snoc
  (config : Tracker.Config) (estSpeed : Z -> Z -> Z -> float)
  (IP_String : list byte -> string) (peer : Tracker.Peer)
  (before : list (Z * Z * Tracker.Ann.AnnounceRequest))
  (cur_time now : Z) (announce : Tracker.Ann.AnnounceRequest) :
  Tracker.UpdateAll config estSpeed IP_String peer
    (before ++ [(cur_time, now, announce)])
  = fst (Tracker.Update config estSpeed IP_String cur_time now
           (Tracker.UpdateAll config estSpeed IP_String peer before)
           announce).
Proof. unfold Tracker.UpdateAll. now rewrite fold_left_app. Qed.

(** C3, as the code has it: in every sequence of announces applied to a
    peer, each [Update] overwrites the stored [Uploaded] and [Downloaded] by
    the totals the announce reports; a stored counter is at least its value
    before the [Update] exactly when the reported total is. *)
Theorem Update_stores_reported_totals
  (config : Tracker.Config) (estSpeed : Z -> Z -> Z -> float)
  (IP_String : list byte -> string) (peer : Tracker.Peer)
  (before : list (Z * Z * Tracker.Ann.AnnounceRequest))
  (cur_time now : Z) (announce : Tracker.Ann.AnnounceRequest) :
  let p0 := Tracker.UpdateAll config estSpeed IP_String peer before in
  let p1 := Tracker.UpdateAll config estSpeed IP_String peer
              (before ++ [(cur_time, now, announce)]) in
  Tracker.Uploaded p1 = Tracker.Ann.Uploaded announce
  /\ Tracker.Downloaded p1 = Tracker.Ann.Downloaded announce
  /\ (Tracker.Uploaded p0 <= Tracker.Uploaded p1
      <-> Tracker.Uploaded p0 <= Tracker.Ann.Uploaded announce)
  /\ (Tracker.Downloaded p0 <= Tracker.Downloaded p1
      <-> Tracker.Downloaded p0 <= Tracker.Ann.Downloaded announce).
Proof.
  intros p0 p1. unfold p1. rewrite UpdateAll_snoc. fold p0.
  rewrite Update_Uploaded, Update_Downloaded.
  repeat split; intros H; exact H.
Qed.

(** C3 fails as stated: after the announce of the restarted client the
    stored [Uploaded] is 50, below the 100 stored before. *)
Lemma Update_Uploaded_decreases :
  Tracker.Uploaded
    (fst (Tracker.Update Samples.config Samples.estSpeed Samples.IP_String
            1060 1060 Samples.leecher Samples.announce_reset))
  < Tracker.Uploaded Samples.leecher.
Proof. reflexivity. Qed.

(** ** The time counter *)

(** C7, as the code has it: for an active peer with a positive previous
    announce time, with [dt] the current time minus that time: if [dt < 0] or
    [dt >= 4 * ann_interval] then [TotalTime] is unchanged, and otherwise it
    increases by [dt] (which is then [min dt (4 * ann_interval)]), within the
    32 bits of the field.  The time of the last announce is within [int32],
    the current time is not negative and below [2^31], the time counter is
    within [uint32], and the interval is not negative and below [2^31]. *)
Theorem Update_TotalTime
  (config : Tracker.Config) (estSpeed : Z -> Z -> Z -> float)
  (IP_String : list byte -> string) (cur_time now : Z)
  (peer : Tracker.Peer) (announce : Tracker.Ann.AnnounceRequest) :
  Tracker.Active peer = true -> 0 < Tracker.AnnounceLast peer ->
  Int.is_i32 (Tracker.AnnounceLast peer) -> 0 <= now < 2 ^ 31 ->
  Int.is_u32 (Tracker.TotalTime peer) ->
  0 <= Tracker.AnnInterval config < 2 ^ 31 ->
  let dt := now - Tracker.AnnounceLast peer in
  let limit := 4 * Tracker.AnnInterval config in
  let peer' :=
    fst (Tracker.Update config estSpeed IP_String cur_time now peer announce)
  in
  (dt < 0 \/ dt >= limit -> Tracker.TotalTime peer' = Tracker.TotalTime peer)
  /\ (0 <= dt < limit ->
      Z.min dt limit = dt
      /\ Tracker.TotalTime peer' = Int.u32 (Tracker.TotalTime peer + dt)
      /\ (Tracker.TotalTime peer + dt < 2 ^ 32 ->
          Tracker.TotalTime peer' = Tracker.TotalTime peer + dt)).
Proof.
  intros Hact Hlast Hrange Hnow Htt Hint dt limit peer'.
  unfold peer'.
  rewrite (TotalTime_after_Update config estSpeed IP_String cur_time now
             peer announce Hact Hlast Hrange Hnow Hint).
  fold dt. fold limit. split.
  - intros [Hneg | Hbig].
    + apply Z.leb_gt in Hneg. now rewrite Hneg.
    + assert (Hb : (dt <? limit) = false) by (apply Z.ltb_ge; lia).
      rewrite Hb. now rewrite andb_false_r.
  - intros [Hge Hlt].
    apply Z.leb_le in Hge as Hb1. apply Z.ltb_lt in Hlt as Hb2.
    rewrite Hb1, Hb2. cbn [andb]. repeat split.
    + lia.
    + intros Hfit. apply u32_id.
      unfold Int.is_u32, Int.two32 in *. lia.
Qed.

Lemma TotalTime_after_a_minute :
  let dt := 1060 - Tracker.AnnounceLast Samples.leecher in
  let limit := 4 * Tracker.AnnInterval Samples.config in
  let peer' :=
    fst (Tracker.Update Samples.config Samples.estSpeed Samples.IP_String
           1060 1060 Samples.leecher Samples.announce_reset) in
  (dt < 0 \/ dt >= limit ->
   Tracker.TotalTime peer' = Tracker.TotalTime Samples.leecher)
  /\ (0 <= dt < limit ->
      Z.min dt limit = dt
      /\ Tracker.TotalTime peer'
         = Int.u32 (Tracker.TotalTime Samples.leecher + dt)
      /\ (Tracker.TotalTime Samples.leecher + dt < 2 ^ 32 ->
          Tracker.TotalTime peer' = Tracker.TotalTime Samples.leecher + dt)).
Proof.
  apply (Update_TotalTime Samples.config Samples.estSpeed Samples.IP_String
           1060 1060 Samples.leecher Samples.announce_reset);
    solve [ reflexivity | vm_compute; split; congruence ].
Defined.

(** The counter is of 32 bits: four announces, each [2^30 + 6] seconds
    after the peer's last one, with an interval of [2^30] seconds, leave it
    at 24. *)
Example TotalTime_wraps
  (estSpeed : Z -> Z -> Z -> float) (IP_String : list byte -> string) :
  Tracker.TotalTime
    (Tracker.UpdateAll
       {| Tracker.AnnInterval := 2 ^ 30; Tracker.HNRThreshold := 3600 |}
       estSpeed IP_String Samples.leecher
       (repeat (1000, 1000 + 2 ^ 30 + 6, Samples.announce_reset) 4))
  = 24.
Proof. reflexivity. Qed.

(** C7 fails as stated at [dt = 4 * ann_interval]: 400 seconds after the
    last announce, with an interval of 100, [dt] is neither [<= 0] nor
    [> 4 * ann_interval], and [TotalTime] does not increase by
    [min dt (4 * ann_interval) = 400]: it is left as it was. *)
Lemma TotalTime_at_the_limit :
  let dt := 1400 - Tracker.AnnounceLast Samples.leecher in
  let limit := 4 * Tracker.AnnInterval Samples.config in
  let peer' :=
    fst (Tracker.Update Samples.config Samples.estSpeed Samples.IP_String
           1400 1400 Samples.leecher Samples.announce_reset) in
  Tracker.Active Samples.leecher = true
  /\ 0 < Tracker.AnnounceLast Samples.leecher
  /\ ~ (dt <= 0 \/ dt > limit)
  /\ Tracker.TotalTime peer'
     <> Tracker.TotalTime Samples.leecher + Z.min dt limit
  /\ Tracker.TotalTime peer' = Tracker.TotalTime Samples.leecher.
Proof.
  cbv zeta. repeat split; try reflexivity.
  - intros [H | H]; vm_compute in H; congruence.
  - vm_compute. congruence.
Qed.

(** ** Hit and run *)

(** A seeder is never flagged. *)
Lemma IsHNR_seeder (config : Tracker.Config) (now : Z) (peer : Tracker.Peer) :
  Tracker.IsSeeder peer = true -> Tracker.IsHNR config now peer = false.
Proof.
  unfold Tracker.IsSeeder, Tracker.IsHNR. intros H.
  apply Z.eqb_eq in H. rewrite H. reflexivity.
Qed.

(** The difference is taken the other way round: a peer whose first
    announce is not in the future is not flagged, whatever the time it spent
    in the swarm, as soon as the threshold is not negative. *)
Lemma IsHNR_past (config : Tracker.Config) (now : Z) (peer : Tracker.Peer) :
  0 <= Tracker.HNRThreshold config ->
  0 <= Tracker.AnnounceFirst peer <= now -> now < 2 ^ 31 ->
  Tracker.IsHNR config now peer = false.
Proof.
  intros Hth Hfirst Hnow. unfold Tracker.IsHNR.
  rewrite i32_id by (unfold Int.is_i32; lia).
  assert (H : (Tracker.AnnounceFirst peer - now
               >? Tracker.HNRThreshold config) = false).
  { rewrite Z.gtb_ltb. apply Z.ltb_ge. lia. }
  rewrite H. apply andb_false_r.
Qed.

(** C4: [IsHNR] is meant to hold exactly of the leechers that have been in
    the swarm for longer than the threshold.  The leecher that first
    announced at time 1000 has been in the swarm for 4000 seconds at time
    5000, longer than the threshold of 3600, and [IsHNR] is false of it: the
    code subtracts the current time from the time of the first announce. *)
Theorem IsHNR_misses_leecher :
  Tracker.IsHNR Samples.config 5000 Samples.leecher = false
  /\ Tracker.in_swarm_longer_than (Tracker.HNRThreshold Samples.config) 5000
       Samples.leecher = true.
Proof. split; reflexivity. Qed.

(** ** Compact peer lists *)

Lemma To4_length (ip : list byte) :
  length (Net.To4 ip) = 4%nat \/ Net.To4 ip = [].
Proof.
  unfold Net.To4.
  destruct (Nat.eqb_spec (length ip) 4) as [H4 | _].
  - now left.
  - destruct (Nat.eqb_spec (length ip) 16) as [H16 | _]; cbn [andb].
    + destruct (Net.isZeros (firstn 10 ip)
                && Byte.eqb (nth 10 ip x00) xff
                && Byte.eqb (nth 11 ip x00) xff).
      * left. rewrite length_firstn, length_skipn, H16. reflexivity.
      * now right.
    + now right.
Qed.

Section CompactPeersFacts.

Import Tracker.

Variable parseIPv4 : string -> list byte.
Variable parseIPv6 : string -> list byte.
Variable skip_id : string.

Local Notation "'written'" := (Tracker.written skip_id).
Local Notation "'has_IPv4'" := (Tracker.has_IPv4 parseIPv4 parseIPv6).

Lemma writeCompactPeer_length (out_buf : list byte) (peer : Peer) :
  (length out_buf
   <= length (writeCompactPeer parseIPv4 parseIPv6 skip_id out_buf peer)
   <= length out_buf + 6)%nat.
Proof.
  unfold writeCompactPeer.
  destruct (Port peer <=? 0); [lia|].
  destruct (String.eqb (PeerID peer) skip_id); [lia|].
  rewrite !length_app. cbn [length].
  destruct (To4_length (Net.ParseIP parseIPv4 parseIPv6 (IP peer)))
    as [H | H]; rewrite H; cbn [length]; lia.
Qed.

Lemma writeCompactPeer_IPv4 (out_buf : list byte) (peer : Peer) :
  has_IPv4 peer = true ->
  length (writeCompactPeer parseIPv4 parseIPv6 skip_id out_buf peer)
  = (length out_buf + if written peer then 6 else 0)%nat.
Proof.
  unfold Tracker.has_IPv4, Tracker.written, writeCompactPeer. intros H.
  apply Nat.eqb_eq in H.
  destruct (Port peer <=? 0); cbn [negb andb]; [lia|].
  destruct (String.eqb (PeerID peer) skip_id); cbn [negb]; [lia|].
  rewrite !length_app, H. cbn [length]. lia.
Qed.

Lemma fold_writeCompactPeer_length (peers : list Peer) :
  forall out_buf : list byte,
    (length (fold_left (writeCompactPeer parseIPv4 parseIPv6 skip_id)
               peers out_buf)
     <= length out_buf + 6 * length peers)%nat.
Proof.
  induction peers as [|peer peers IH]; intros out_buf; cbn [fold_left length].
  - lia.
  - specialize (IH (writeCompactPeer parseIPv4 parseIPv6 skip_id
                      out_buf peer)).
    pose proof (writeCompactPeer_length out_buf peer). lia.
Qed.

Lemma fold_writeCompactPeer_IPv4 (peers : list Peer) :
  forallb has_IPv4 peers = true ->
  forall out_buf : list byte,
    length (fold_left (writeCompactPeer parseIPv4 parseIPv6 skip_id)
              peers out_buf)
    = (length out_buf + 6 * length (filter written peers))%nat.
Proof.
  induction peers as [|peer peers IH]; intros Hall out_buf;
    cbn [fold_left filter length].
  - lia.
  - cbn [forallb] in Hall. apply andb_true_iff in Hall as [Hp Hall].
    rewrite (IH Hall), (writeCompactPeer_IPv4 _ _ Hp).
    destruct (written peer); cbn [length]; lia.
Qed.

(** Whatever the stored addresses, a peer adds at most six bytes: a caller
    that passes at most [min numwant MaxPeers] peers gets at most six times
    as many bytes. *)
Lemma makeCompactPeers_length_le (peers : list Peer) (numwant MaxPeers : nat) :
  (length peers <= Nat.min numwant MaxPeers)%nat ->
  (length (makeCompactPeers parseIPv4 parseIPv6 peers skip_id)
   <= 6 * Nat.min numwant MaxPeers)%nat.
Proof.
  intros H. unfold makeCompactPeers.
  pose proof (fold_writeCompactPeer_length peers []) as Hle.
  cbn [length] in Hle. lia.
Qed.

(** Where every stored address is the text of an IPv4 address, the list is
    of six bytes for each peer written. *)
Lemma makeCompactPeers_length_IPv4 (peers : list Peer) :
  forallb has_IPv4 peers = true ->
  length (makeCompactPeers parseIPv4 parseIPv6 peers skip_id)
  = (6 * length (filter written peers))%nat.
Proof.
  intros H. unfold makeCompactPeers.
  now rewrite (fold_writeCompactPeer_IPv4 peers H []).
Qed.

End CompactPeersFacts.

(** C2: the compact list is meant to be of six bytes for each peer, also
    where a stored address is not a valid IPv4 address.  For the peer whose
    stored address is ["<nil>"] and whose port is 6881, [makeCompactPeers]
    writes the two bytes of the port and no address: the length of the list
    is 2, not a multiple of 6 ([To4] yields nil and the code does not look at
    it).  This holds whatever the two text parsers of package [net] do, as
    the text has neither a dot nor a colon. *)
Theorem makeCompactPeers_without_address
  (parseIPv4 parseIPv6 : string -> list byte) :
  Tracker.makeCompactPeers parseIPv4 parseIPv6
    [Samples.peer_without_address] "" = [x1a; xe1]
  /\ (length (Tracker.makeCompactPeers parseIPv4 parseIPv6
                [Samples.peer_without_address] "") mod 6 <> 0)%nat.
Proof. split; [reflexivity | discriminate]. Qed.

(** ** The peer listing *)

Section GetPeersFacts.

Import PeerStore.

Variable unixtime : nat -> Z.
Variable Receive : nat -> Received.

(** The loop appends to the slice: it keeps what the slice held and adds
    at most one peer at each turn. *)
Lemma receivePeers_length (n : nat) :
  forall (i k : nat) (peers : list Peer),
    (length peers <= length (receivePeers unixtime Receive n i k peers)
     <= length peers + n)%nat.
Proof.
  induction n as [|n IH]; intros i k peers; cbn [receivePeers].
  - lia.
  - destruct (Receive i) as [|peer_reply].
    + specialize (IH (S i) k peers). lia.
    + destruct (makePeer (unixtime k) (unixtime (S k)) peer_reply)
        as [peer [e|]].
      * specialize (IH (S i) (S (S k)) peers). lia.
      * specialize (IH (S i) (S (S k)) (peers ++ [peer])).
        rewrite length_app in IH. cbn [length] in IH. lia.
Qed.

(** Where every reply is received and scanned, it adds one at each turn. *)
Lemma receivePeers_length_ok (n : nat) :
  (forall i, exists scan, Receive i = ReceiveOk (ScanOk scan)) ->
  forall (i k : nat) (peers : list Peer),
    length (receivePeers unixtime Receive n i k peers)
    = (length peers + n)%nat.
Proof.
  intros Hok. induction n as [|n IH]; intros i k peers; cbn [receivePeers].
  - lia.
  - destruct (Hok i) as [scan Hi]. rewrite Hi. cbn [makePeer].
    rewrite IH, length_app. cbn [length]. lia.
Qed.

(** The slice starts with [known_peers] zero values: the list that
    [GetPeers] returns is of at least [known_peers] and at most twice
    [known_peers] peers, [known_peers] being the smaller of the number of
    peer ids and of [max_peers]. *)
Lemma GetPeers_length (peer_ids : list string) (max_peers : Z) :
  0 <= max_peers ->
  exists peers,
    GetPeers unixtime Receive (Members peer_ids) max_peers = Some peers
    /\ Z.min (Z.of_nat (length peer_ids)) max_peers
       <= Z.of_nat (length peers)
       <= 2 * Z.min (Z.of_nat (length peer_ids)) max_peers.
Proof.
  intros Hmax. unfold GetPeers.
  set (known := if Z.of_nat (length peer_ids) >? max_peers
                then max_peers else Z.of_nat (length peer_ids)).
  assert (Hknown : known = Z.min (Z.of_nat (length peer_ids)) max_peers).
  { unfold known. rewrite Z.gtb_ltb.
    destruct (Z.ltb_spec max_peers (Z.of_nat (length peer_ids))); lia. }
  assert (Hpos : (known <? 0) = false) by (apply Z.ltb_ge; lia).
  rewrite Hpos. eexists. split; [reflexivity|].
  pose proof (receivePeers_length (Z.to_nat known) 0 0
                (repeat zeroPeer (Z.to_nat known))) as H.
  rewrite repeat_length in H. lia.
Qed.

End GetPeersFacts.

(** C6: [GetPeers] is meant to return at most [max_peers] peers.  With one
    peer id stored for the torrent, [max_peers = 1] and a reply that scans,
    it returns two: the zero value that [make([]Peer, known_peers)] put in
    the slice and, appended to it, the peer read from the store. *)
Theorem GetPeers_above_max_peers :
  PeerStore.GetPeers Samples.unixtime Samples.Receive
    (PeerStore.Members ["-UT3550-000000000001"%string]) 1
  = Some [PeerStore.zeroPeer;
          fst (PeerStore.makePeer 1000 1000
                 (PeerStore.ScanOk (fun peer => peer)))]
  /\ 1 < Z.of_nat (length [PeerStore.zeroPeer;
                           fst (PeerStore.makePeer 1000 1000
                                  (PeerStore.ScanOk (fun peer => peer)))]).
Proof. split; reflexivity. Qed.

(** ** The metrics read-out *)


Lemma i64_id (z : Z) : Int.is_i64 z -> Int.i64 z = z.
Proof.
  unfold Int.is_i64, Int.i64, Int.two64. intros H.
  rewrite Z.mod_small by lia. lia.
Qed.




Section GetFacts.

Import Metrics.

Variable c : Counters.

Local Notation "'snapshot'" := (fst (Get c)).
Local Notation "'after'" := (snd (Get c)).





End GetFacts.



(** * Further properties of the code *)

(** ** Parsing and printing identifiers *)

Lemma fromHexChar_is_hex_digit (c : ascii) (a : N) :
  Hex.fromHexChar c = Some a -> Hex.is_hex_digit c = true.
Proof.
  destruct c as [[] [] [] [] [] [] [] []]; intros H;
    solve [ discriminate H | reflexivity ].
Qed.

Lemma Decode_inl (n : nat) :
  forall (h : string) (bs : list byte),
    (String.length h <= n)%nat -> Hex.Decode h = inl bs ->
    Hex.is_hex_string h = true /\ String.length h = (2 * length bs)%nat.
Proof.
  induction n as [|n IH]; intros h bs Hlen Hdec.
  - destruct h; [|cbn in Hlen; lia].
    injection Hdec as <-. split; reflexivity.
  - destruct h as [|c1 [|c2 r]].
    + injection Hdec as <-. split; reflexivity.
    + cbn [Hex.Decode] in Hdec. destruct (Hex.fromHexChar c1); discriminate.
    + cbn [Hex.Decode] in Hdec.
      destruct (Hex.fromHexChar c1) as [a|] eqn:Ha; [|discriminate].
      destruct (Hex.fromHexChar c2) as [b|] eqn:Hb; [|discriminate].
      destruct (Hex.Decode r) as [bs'|e] eqn:Hr; [|discriminate].
      injection Hdec as <-.
      cbn [String.length] in Hlen.
      destruct (IH r bs') as [Hhex Hl]; [lia | exact Hr |].
      split.
      * unfold Hex.is_hex_string. cbn [Strings.all_chars].
        rewrite (fromHexChar_is_hex_digit _ _ Ha),
          (fromHexChar_is_hex_digit _ _ Hb).
        exact Hhex.
      * cbn [String.length length]. lia.
Qed.

(** [InfoHashFromHex] returns no error exactly for the texts of forty
    hexadecimal digits, and where it returns an error the info hash it was
    given is left as it was. *)
Theorem InfoHashFromHex_accepts (infoHash : Store.InfoHash) (h : string) :
  (snd (Store.InfoHashFromHex infoHash h) = None
   <-> String.length h = 40%nat /\ Hex.is_hex_string h = true)
  /\ (snd (Store.InfoHashFromHex infoHash h) <> None ->
      fst (Store.InfoHashFromHex infoHash h) = infoHash).
Proof.
  unfold Store.InfoHashFromHex, Hex.DecodeString.
  destruct (Nat.eqb_spec (String.length h) 40) as [H40 | Hn40]; cbn [negb].
  - destruct (Hex.Decode h) as [bs | e] eqn:Hdec; cbn [fst snd].
    + split; [|congruence]. split; [intros _ | reflexivity].
      split; [exact H40|].
      now destruct (Decode_inl (String.length h) h bs (le_n _) Hdec).
    + split; [|reflexivity]. split; [discriminate|].
      intros [_ Hhex].
      destruct (Decode_hex_string 20 h H40 Hhex) as [bs [Hbs _]].
      congruence.
  - cbn [fst snd]. split; [|reflexivity].
    split; [discriminate | intros [H _]; contradiction].
Qed.

Lemma N_below_16 (a : N) :
  (a < 16)%N ->
  In a [0; 1; 2; 3; 4; 5; 6; 7; 8; 9; 10; 11; 12; 13; 14; 15]%N.
Proof.
  intros H. cbn [In].
  assert (a = 0 \/ a = 1 \/ a = 2 \/ a = 3 \/ a = 4 \/ a = 5 \/ a = 6
          \/ a = 7 \/ a = 8 \/ a = 9 \/ a = 10 \/ a = 11 \/ a = 12
          \/ a = 13 \/ a = 14 \/ a = 15)%N as Ha by lia.
  intuition auto.
Qed.

Lemma join_split (a b : N) :
  (a < 16)%N -> (b < 16)%N ->
  N.shiftr (Byte.to_N (Hex.join a b)) 4 = a
  /\ N.land (Byte.to_N (Hex.join a b)) 15 = b.
Proof.
  intros Ha Hb.
  apply N_below_16 in Ha, Hb. cbn [In] in Ha, Hb.
  repeat (destruct Ha as [<- | Ha]; [|]); try contradiction;
    repeat (destruct Hb as [<- | Hb]; [|]); try contradiction;
    split; reflexivity.
Qed.

Lemma fromHexChar_lower (c : ascii) (a : N) :
  Hex.fromHexChar c = Some a -> (a < 16)%N /\ Hex.digit a = Strings.lower c.
Proof.
  destruct c as [[] [] [] [] [] [] [] []]; intros H;
    try discriminate H; injection H as <-; split; reflexivity.
Qed.

Lemma Sprintf_x_Decode (n : nat) :
  forall (h : string) (bs : list byte),
    (String.length h <= n)%nat -> Hex.Decode h = inl bs ->
    Hex.Sprintf_x bs = Strings.ToLower h.
Proof.
  induction n as [|n IH]; intros h bs Hlen Hdec.
  - destruct h; [|cbn in Hlen; lia]. now injection Hdec as <-.
  - destruct h as [|c1 [|c2 r]].
    + now injection Hdec as <-.
    + cbn [Hex.Decode] in Hdec. destruct (Hex.fromHexChar c1); discriminate.
    + cbn [Hex.Decode] in Hdec.
      destruct (Hex.fromHexChar c1) as [a|] eqn:Ha; [|discriminate].
      destruct (Hex.fromHexChar c2) as [b|] eqn:Hb; [|discriminate].
      destruct (Hex.Decode r) as [bs'|e] eqn:Hr; [|discriminate].
      injection Hdec as <-.
      cbn [String.length] in Hlen.
      destruct (fromHexChar_lower _ _ Ha) as [Ha16 Hla].
      destruct (fromHexChar_lower _ _ Hb) as [Hb16 Hlb].
      destruct (join_split a b Ha16 Hb16) as [Hhi Hlo].
      cbn [Hex.Sprintf_x Strings.ToLower].
      rewrite Hhi, Hlo, Hla, Hlb. f_equal. f_equal.
      apply IH; [lia | exact Hr].
Qed.

(** Parsing a text of forty hexadecimal digits and printing the info hash
    gives the text back in small letters. *)
Theorem InfoHash_String_FromHex (infoHash : Store.InfoHash) (h : string) :
  Store.wf_InfoHash infoHash ->
  String.length h = 40%nat -> Hex.is_hex_string h = true ->
  Store.InfoHash_String (fst (Store.InfoHashFromHex infoHash h))
  = Strings.ToLower h.
Proof.
  unfold Store.wf_InfoHash. intros Hwf Hlen Hhex.
  destruct (Decode_hex_string 20 h Hlen Hhex) as [bs [Hbs Hn]].
  unfold Store.InfoHashFromHex, Hex.DecodeString, Store.InfoHash_String.
  rewrite Hlen, Hbs. cbn [Nat.eqb negb fst].
  rewrite copy_same_length by (now rewrite Hn, Hwf).
  now apply (Sprintf_x_Decode (String.length h) h bs).
Qed.

Lemma InfoHash_String_FromHex_hex40 :
  Store.InfoHash_String
    (fst (Store.InfoHashFromHex (Store.zeros 20) Samples.hex40))
  = Strings.ToLower Samples.hex40.
Proof.
  apply (InfoHash_String_FromHex (Store.zeros 20) Samples.hex40);
    reflexivity.
Defined.

Lemma copy_from_longer {A : Type} (dst src : list A) :
  (length dst <= length src)%nat -> copy dst src = firstn (length dst) src.
Proof.
  intros H. unfold copy. rewrite skipn_all2 by exact H. apply app_nil_r.
Qed.

Lemma copy_from_shorter {A : Type} (dst src : list A) :
  (length src <= length dst)%nat ->
  copy dst src = src ++ skipn (length src) dst.
Proof.
  intros H. unfold copy. now rewrite firstn_all2 by exact H.
Qed.

Lemma list_byte_of_string_length (s : string) :
  length (list_byte_of_string s) = String.length s.
Proof.
  induction s as [|c s IH]; [reflexivity|].
  change (list_byte_of_string (String c s))
    with (byte_of_ascii c :: list_byte_of_string s).
  cbn [length String.length]. now rewrite IH.
Qed.

(** [InfoHashFromBytes] and [InfoHashFromString] never return an error and
    keep the array at 20 bytes: of 20 bytes or more they take the first 20,
    and fewer bytes overwrite the start of the info hash, the rest of which
    stays as it was. *)
Theorem InfoHashFromBytes_copies
  (infoHash : Store.InfoHash) (b : list byte) (s : string) :
  Store.wf_InfoHash infoHash ->
  let r := Store.InfoHashFromBytes infoHash b in
  (snd r = None /\ Store.wf_InfoHash (fst r))
  /\ ((20 <= length b)%nat -> fst r = firstn 20 b)
  /\ ((length b < 20)%nat -> fst r = b ++ skipn (length b) infoHash)
  /\ Store.InfoHashFromString infoHash s
     = Store.InfoHashFromBytes infoHash (list_byte_of_string s).
Proof.
  intros Hwf r. subst r.
  unfold Store.wf_InfoHash, Store.InfoHashFromBytes in *.
  cbn [fst snd]. repeat split.
  - now rewrite copy_length.
  - intros H. rewrite copy_from_longer by lia. now rewrite Hwf.
  - intros H. apply copy_from_shorter. lia.
Qed.

Lemma InfoHashFromBytes_copies_short :
  let r := Store.InfoHashFromBytes Samples.H1 [xaa; xbb] in
  (snd r = None /\ Store.wf_InfoHash (fst r))
  /\ ((20 <= length [xaa; xbb])%nat -> fst r = firstn 20 [xaa; xbb])
  /\ ((length [xaa; xbb] < 20)%nat ->
      fst r = [xaa; xbb] ++ skipn (length [xaa; xbb]) Samples.H1)
  /\ Store.InfoHashFromString Samples.H1 "ab"
     = Store.InfoHashFromBytes Samples.H1 (list_byte_of_string "ab").
Proof.
  apply (InfoHashFromBytes_copies Samples.H1 [xaa; xbb] "ab"). reflexivity.
Defined.

(** The raw string of an info hash, read back by [InfoHashFromString],
    is the info hash; it is of 20 characters. *)
Theorem InfoHashFromString_RawString (infoHash ih : Store.InfoHash) :
  Store.wf_InfoHash infoHash -> Store.wf_InfoHash ih ->
  Store.InfoHashFromString infoHash (Store.InfoHash_RawString ih) = (ih, None)
  /\ String.length (Store.InfoHash_RawString ih) = 20%nat.
Proof.
  unfold Store.wf_InfoHash, Store.InfoHashFromString,
    Store.InfoHash_RawString, Store.InfoHash_Bytes.
  intros Hdst Hih. split.
  - rewrite list_byte_of_string_of_list_byte.
    now rewrite copy_same_length by (now rewrite Hih, Hdst).
  - now rewrite <- list_byte_of_string_length,
      list_byte_of_string_of_list_byte.
Qed.

Lemma InfoHashFromString_RawString_H1 :
  Store.InfoHashFromString (Store.zeros 20)
    (Store.InfoHash_RawString Samples.H1) = (Samples.H1, None)
  /\ String.length (Store.InfoHash_RawString Samples.H1) = 20%nat.
Proof.
  apply (InfoHashFromString_RawString (Store.zeros 20) Samples.H1);
    reflexivity.
Defined.

(** ** Scanning an info hash from the database *)

(** [Scan] returns no error exactly for a byte slice of at least 20 bytes,
    of which the info hash is then the first 20; so it reads back what
    [Value] gives. *)
Theorem InfoHash_Scan_accepts (ih ih' : Store.InfoHash) (v : Store.Value) :
  Store.wf_InfoHash ih -> Store.wf_InfoHash ih' ->
  (snd (Store.InfoHash_Scan ih v) = None
   <-> exists vt, v = Store.VBytes vt /\ (20 <= length vt)%nat)
  /\ (forall vt, v = Store.VBytes vt -> (20 <= length vt)%nat ->
      fst (Store.InfoHash_Scan ih v) = firstn 20 vt)
  /\ Store.InfoHash_Scan ih (fst (Store.InfoHash_Value ih')) = (ih', None).
Proof.
  unfold Store.wf_InfoHash. intros Hwf Hwf'. split; [|split].
  - destruct v as [vt|]; cbn [Store.InfoHash_Scan].
    + rewrite Hwf.
      destruct (Nat.eqb_spec (Nat.min 20 (length vt)) 20) as [He | Hne];
        cbn [negb snd].
      * split; [intros _; exists vt; split; [reflexivity | lia] | reflexivity].
      * split; [discriminate|].
        intros [vt' [Hv Hlen]]. injection Hv as <-. lia.
    + cbn [snd]. split; [discriminate | intros [vt [Hv _]]; discriminate].
  - intros vt -> Hlen. cbn [Store.InfoHash_Scan]. rewrite Hwf.
    replace (Nat.min 20 (length vt)) with 20%nat by lia.
    cbn [Nat.eqb negb fst].
    rewrite copy_from_longer by lia. now rewrite Hwf.
  - unfold Store.InfoHash_Value, Store.InfoHash_Bytes.
    cbn [fst Store.InfoHash_Scan]. rewrite Hwf, Hwf'.
    cbn [Nat.min Nat.eqb negb].
    now rewrite copy_same_length by (now rewrite Hwf, Hwf').
Qed.

Lemma InfoHash_Scan_accepts_H1 :
  (snd (Store.InfoHash_Scan (Store.zeros 20) (Store.VBytes Samples.H1)) = None
   <-> exists vt, Store.VBytes Samples.H1 = Store.VBytes vt
                  /\ (20 <= length vt)%nat)
  /\ (forall vt, Store.VBytes Samples.H1 = Store.VBytes vt ->
      (20 <= length vt)%nat ->
      fst (Store.InfoHash_Scan (Store.zeros 20) (Store.VBytes Samples.H1))
      = firstn 20 vt)
  /\ Store.InfoHash_Scan (Store.zeros 20)
       (fst (Store.InfoHash_Value Samples.H1)) = (Samples.H1, None).
Proof.
  apply (InfoHash_Scan_accepts (Store.zeros 20) Samples.H1
           (Store.VBytes Samples.H1)); reflexivity.
Defined.

(** [Scan] of a byte slice of fewer than 20 bytes returns the error with
    the number of bytes, and has by then written the bytes over the start of
    the info hash. *)
Theorem InfoHash_Scan_short (ih : Store.InfoHash) (vt : list byte) :
  Store.wf_InfoHash ih -> (length vt < 20)%nat ->
  Store.InfoHash_Scan ih (Store.VBytes vt)
  = (vt ++ skipn (length vt) ih, Some (Store.ErrDataLength (length vt))).
Proof.
  unfold Store.wf_InfoHash. intros Hwf Hlen.
  cbn [Store.InfoHash_Scan]. rewrite Hwf.
  replace (Nat.min 20 (length vt)) with (length vt) by lia.
  destruct (Nat.eqb_spec (length vt) 20) as [He | _]; [lia|].
  cbn [negb]. now rewrite copy_from_shorter by lia.
Qed.

Lemma InfoHash_Scan_short_two_bytes :
  Store.InfoHash_Scan Samples.H1 (Store.VBytes [xaa; xbb])
  = ([xaa; xbb] ++ skipn (length [xaa; xbb]) Samples.H1,
     Some (Store.ErrDataLength (length [xaa; xbb]))).
Proof.
  apply (InfoHash_Scan_short Samples.H1 [xaa; xbb]);
    [reflexivity | cbn; lia].
Defined.

(** ** Peer hashes in hexadecimal *)

(** The base-16 text of a peer hash, read back by [PeerHashFromHex], is the
    peer hash. *)
Theorem PeerHashFromHex_String (peerHash ph : Store.PeerHash) :
  Store.wf_PeerHash peerHash -> Store.wf_PeerHash ph ->
  Store.PeerHashFromHex peerHash (Store.PeerHash_String ph) = (ph, None).
Proof.
  unfold Store.wf_PeerHash, Store.PeerHashFromHex, Store.PeerHash_String,
    Hex.DecodeString.
  intros Hdst Hph. rewrite Decode_Sprintf_x.
  now rewrite copy_same_length by (now rewrite Hph, Hdst).
Qed.

Lemma PeerHashFromHex_String_H1_P1 :
  Store.PeerHashFromHex (Store.zeros 40)
    (Store.PeerHash_String (Store.NewPeerHash Samples.H1 Samples.P1))
  = (Store.NewPeerHash Samples.H1 Samples.P1, None).
Proof.
  apply (PeerHashFromHex_String (Store.zeros 40)
           (Store.NewPeerHash Samples.H1 Samples.P1)); reflexivity.
Defined.

(** [PeerHashFromHex] asks no length of the text: given the base-16 text of
    an info hash alone, it returns no error and replaces the info hash of the
    peer hash, whose peer id stays as it was. *)
Theorem PeerHashFromHex_of_info_hash
  (peerHash : Store.PeerHash) (ih : Store.InfoHash) :
  Store.wf_PeerHash peerHash -> Store.wf_InfoHash ih ->
  let r := Store.PeerHashFromHex peerHash (Store.InfoHash_String ih) in
  snd r = None
  /\ Store.PeerHash_InfoHash (fst r) = ih
  /\ Store.PeerHash_PeerID (fst r) = Store.PeerHash_PeerID peerHash.
Proof.
  intros Hph Hih r. subst r.
  unfold Store.wf_PeerHash, Store.wf_InfoHash in *.
  unfold Store.PeerHashFromHex, Store.InfoHash_String, Hex.DecodeString.
  rewrite Decode_Sprintf_x. cbn [fst snd].
  rewrite copy_from_shorter by lia. rewrite Hih.
  split; [reflexivity|]. split.
  - unfold Store.PeerHash_InfoHash. rewrite (firstn_20_app ih Hih).
    apply copy_same_length. now rewrite Hih.
  - unfold Store.PeerHash_PeerID. now rewrite (skipn_20_app ih Hih).
Qed.

Lemma PeerHashFromHex_of_info_hash_H1 :
  let r := Store.PeerHashFromHex (Store.NewPeerHash Samples.H1 Samples.P1)
             (Store.InfoHash_String Samples.P1) in
  snd r = None
  /\ Store.PeerHash_InfoHash (fst r) = Samples.P1
  /\ Store.PeerHash_PeerID (fst r)
     = Store.PeerHash_PeerID (Store.NewPeerHash Samples.H1 Samples.P1).
Proof.
  apply (PeerHashFromHex_of_info_hash
           (Store.NewPeerHash Samples.H1 Samples.P1) Samples.P1);
    reflexivity.
Defined.

(** ** Removing a user *)

Lemma User_eqb_eq (u p : Users.User) : Users.User_eqb u p = true <-> u = p.
Proof.
  destruct u as [i1 k1 d1 e1 dn1 up1 a1], p as [i2 k2 d2 e2 dn2 up2 a2].
  unfold Users.User_eqb. cbn.
  rewrite !andb_true_iff, !Z.eqb_eq, String.eqb_eq, !Bool.eqb_true_iff.
  split.
  - intros [[[[[[-> ->] ->] ->] ->] ->] ->]. reflexivity.
  - intros H. injection H as -> -> -> -> -> -> ->. repeat split.
Qed.

Lemma User_eqb_neq (u p : Users.User) : u <> p -> Users.User_eqb u p = false.
Proof.
  intros H. destruct (Users.User_eqb u p) eqn:E; [|reflexivity].
  apply User_eqb_eq in E. contradiction.
Qed.

Lemma Remove_below_absent (users : list Users.User) (p : Users.User) :
  ~ In p users -> forall n, Users.Remove_below n users p = users.
Proof.
  intros Hnot n. induction n as [|i IH]; cbn [Users.Remove_below].
  - reflexivity.
  - destruct (nth_error users i) as [u|] eqn:Hu; [|reflexivity].
    rewrite User_eqb_neq; [exact IH|].
    intros ->. apply Hnot. now apply nth_error_In with i.
Qed.

Lemma Remove_below_last (l1 l2 : list Users.User) (p : Users.User) :
  ~ In p l2 ->
  forall k, (k <= length l2)%nat ->
    Users.Remove_below (S (length l1 + k)) (l1 ++ p :: l2) p = l1 ++ l2.
Proof.
  intros Hnot k. induction k as [|k IH]; intros Hk.
  - rewrite Nat.add_0_r. cbn [Users.Remove_below].
    rewrite nth_error_app2, Nat.sub_diag by lia. cbn [nth_error].
    assert (Hpp : Users.User_eqb p p = true) by now apply User_eqb_eq.
    rewrite Hpp.
    rewrite firstn_app, Nat.sub_diag, firstn_all, firstn_O, app_nil_r.
    replace (S (length l1)) with (length l1 + 1)%nat by lia.
    rewrite skipn_app.
    rewrite skipn_all2 by lia.
    replace (length l1 + 1 - length l1)%nat with 1%nat by lia.
    reflexivity.
  - cbn [Users.Remove_below].
    rewrite nth_error_app2 by lia.
    replace (length l1 + S k - length l1)%nat with (S k) by lia.
    cbn [nth_error].
    destruct (nth_error l2 k) as [u|] eqn:Hu.
    + rewrite User_eqb_neq.
      * replace (length l1 + S k)%nat with (S (length l1 + k)) by lia.
        apply IH. lia.
      * intros ->. apply Hnot. now apply nth_error_In with k.
    + apply nth_error_None in Hu. lia.
Qed.

(** [Remove] takes out one user, the last that equals [p], and keeps the
    others in their order; without such a user the slice is returned as it
    is. *)
Theorem Users_Remove (l1 l2 users : list Users.User) (p : Users.User) :
  (~ In p users -> Users.Remove users p = users)
  /\ (~ In p l2 -> Users.Remove (l1 ++ p :: l2) p = l1 ++ l2).
Proof.
  split; intros Hnot.
  - now apply Remove_below_absent.
  - unfold Users.Remove. rewrite length_app. cbn [length].
    replace (length l1 + S (length l2))%nat
      with (S (length l1 + length l2)) by lia.
    now apply Remove_below_last.
Qed.

(** ** Compact peer lists, continued *)

Section CompactRecords.

Import Tracker.

Variable parseIPv4 : string -> list byte.
Variable parseIPv6 : string -> list byte.
Variable skip_id : string.

Local Notation "'write'" := (writeCompactPeer parseIPv4 parseIPv6 skip_id).
Local Notation "'compact'" :=
  (fun peers => makeCompactPeers parseIPv4 parseIPv6 peers skip_id).

Lemma writeCompactPeer_app (out_buf : list byte) (peer : Peer) :
  write out_buf peer = out_buf ++ write [] peer.
Proof.
  unfold writeCompactPeer.
  destruct (Port peer <=? 0); [now rewrite app_nil_r|].
  destruct (String.eqb (PeerID peer) skip_id); [now rewrite app_nil_r|].
  cbn [app]. now rewrite <- app_assoc.
Qed.

Lemma fold_writeCompactPeer_app (peers : list Peer) :
  forall out_buf : list byte,
    fold_left write peers out_buf = out_buf ++ fold_left write peers [].
Proof.
  induction peers as [|peer peers IH]; intros out_buf; cbn [fold_left].
  - now rewrite app_nil_r.
  - rewrite IH, (IH (write [] peer)), (writeCompactPeer_app out_buf).
    now rewrite app_assoc.
Qed.

Lemma makeCompactPeers_cons (peer : Peer) (peers : list Peer) :
  compact (peer :: peers) = compact [peer] ++ compact peers.
Proof.
  unfold makeCompactPeers. cbn [fold_left].
  now rewrite fold_writeCompactPeer_app.
Qed.

Lemma makeCompactPeers_app_ (peers1 peers2 : list Peer) :
  compact (peers1 ++ peers2) = compact peers1 ++ compact peers2.
Proof.
  unfold makeCompactPeers. rewrite fold_left_app.
  now rewrite fold_writeCompactPeer_app.
Qed.

Lemma makeCompactPeers_not_written (peer : Peer) :
  Tracker.written skip_id peer = false -> compact [peer] = [].
Proof.
  unfold Tracker.written, makeCompactPeers, writeCompactPeer.
  cbn [fold_left].
  destruct (Port peer <=? 0); [reflexivity|].
  destruct (String.eqb (PeerID peer) skip_id); [reflexivity|].
  discriminate.
Qed.

Lemma makeCompactPeers_filter_ (peers : list Peer) :
  compact peers = compact (filter (Tracker.written skip_id) peers).
Proof.
  induction peers as [|peer peers IH]; [reflexivity|].
  cbn [filter]. rewrite makeCompactPeers_cons.
  destruct (Tracker.written skip_id peer) eqn:Hw.
  - rewrite (makeCompactPeers_cons peer (filter _ _)). now rewrite <- IH.
  - rewrite (makeCompactPeers_not_written peer Hw). exact IH.
Qed.

End CompactRecords.

(** The compact list of two peer lists one after the other is the compact
    list of the first followed by that of the second: the records are in the
    order of the peers, and no record depends on the peers around it. *)
Theorem makeCompactPeers_app
  (parseIPv4 parseIPv6 : string -> list byte) (skip_id : string)
  (peers1 peers2 : list Tracker.Peer) :
  Tracker.makeCompactPeers parseIPv4 parseIPv6 (peers1 ++ peers2) skip_id
  = Tracker.makeCompactPeers parseIPv4 parseIPv6 peers1 skip_id
    ++ Tracker.makeCompactPeers parseIPv4 parseIPv6 peers2 skip_id.
Proof. apply makeCompactPeers_app_. Qed.

(** The requester and the peers without a port leave no trace in the compact
    list: it is the compact list of the other peers, and the list of none but
    such peers is empty. *)
Theorem makeCompactPeers_skips
  (parseIPv4 parseIPv6 : string -> list byte) (skip_id : string)
  (peers : list Tracker.Peer) :
  Tracker.makeCompactPeers parseIPv4 parseIPv6 peers skip_id
  = Tracker.makeCompactPeers parseIPv4 parseIPv6
      (filter (Tracker.written skip_id) peers) skip_id
  /\ (forallb (fun peer => (Tracker.Port peer =? 0)
                           || String.eqb (Tracker.PeerID peer) skip_id) peers
      = true ->
      Tracker.makeCompactPeers parseIPv4 parseIPv6 peers skip_id = []).
Proof.
  split; [apply makeCompactPeers_filter_|].
  intros Hall. rewrite makeCompactPeers_filter_.
  replace (filter (Tracker.written skip_id) peers) with (@nil Tracker.Peer);
    [reflexivity|].
  symmetry. induction peers as [|peer peers IH]; [reflexivity|].
  cbn [forallb] in Hall. apply andb_true_iff in Hall as [Hp Hall].
  cbn [filter]. rewrite (IH Hall).
  unfold Tracker.written.
  apply orb_true_iff in Hp as [Hp | Hp].
  - apply Z.eqb_eq in Hp. rewrite Hp. reflexivity.
  - rewrite Hp. now rewrite andb_false_r.
Qed.

Lemma to_byte_to_N (z : Z) : Byte.to_N (Int.to_byte z) = Z.to_N (z mod 256).
Proof.
  unfold Int.to_byte.
  destruct (Byte.of_N (Z.to_N (z mod 256))) as [b|] eqn:E.
  - now apply Byte.to_of_N.
  - apply Byte.of_N_None_iff in E.
    pose proof (Z.mod_pos_bound z 256). lia.
Qed.

Lemma port_bytes (port : Z) :
  0 <= port ->
  256 * (Z.shiftr port 8 mod 256) + Z.land port 255 mod 256 = port mod 65536.
Proof.
  intros Hp.
  rewrite Z.shiftr_div_pow2 by lia.
  change 255 with (Z.ones 8). rewrite Z.land_ones by lia.
  change (2 ^ 8) with 256.
  rewrite Z.mod_mod by lia.
  change 65536 with (256 * 256).
  rewrite Z.rem_mul_r by lia. lia.
Qed.

(** The record of a peer that is written and whose stored address is the
    text of an IPv4 address: the four bytes of the address, then the port in
    two bytes, the high one first; a port of more than 16 bits is cut to its
    low 16 bits. *)
Theorem makeCompactPeers_record
  (parseIPv4 parseIPv6 : string -> list byte) (skip_id : string)
  (peer : Tracker.Peer) :
  Tracker.written skip_id peer = true ->
  Tracker.has_IPv4 parseIPv4 parseIPv6 peer = true ->
  0 <= Tracker.Port peer ->
  exists a b c d hi lo : byte,
    Tracker.makeCompactPeers parseIPv4 parseIPv6 [peer] skip_id
    = [a; b; c; d; hi; lo]
    /\ Net.To4 (Net.ParseIP parseIPv4 parseIPv6 (Tracker.IP peer))
       = [a; b; c; d]
    /\ 256 * Z.of_N (Byte.to_N hi) + Z.of_N (Byte.to_N lo)
       = Tracker.Port peer mod 65536.
Proof.
  unfold Tracker.written, Tracker.has_IPv4. intros Hw H4 Hport.
  apply andb_true_iff in Hw as [Hp Hs].
  apply negb_true_iff in Hp, Hs. apply Nat.eqb_eq in H4.
  destruct (Net.To4 (Net.ParseIP parseIPv4 parseIPv6 (Tracker.IP peer)))
    as [|a [|b [|c [|d [|e l]]]]] eqn:Hip; try discriminate H4.
  exists a, b, c, d, (Int.to_byte (Z.shiftr (Tracker.Port peer) 8)),
    (Int.to_byte (Z.land (Tracker.Port peer) 255)).
  split; [|split].
  - unfold Tracker.makeCompactPeers, Tracker.writeCompactPeer.
    cbn [fold_left]. now rewrite Hp, Hs, Hip.
  - reflexivity.
  - rewrite !to_byte_to_N.
    rewrite !Z2N.id by (apply Z.mod_pos_bound; lia).
    now apply port_bytes.
Qed.

Lemma makeCompactPeers_record_leecher :
  exists a b c d hi lo : byte,
    Tracker.makeCompactPeers Samples.parseIPv4 Samples.parseIPv6
      [Samples.leecher] ""
    = [a; b; c; d; hi; lo]
    /\ Net.To4 (Net.ParseIP Samples.parseIPv4 Samples.parseIPv6
                  (Tracker.IP Samples.leecher))
       = [a; b; c; d]
    /\ 256 * Z.of_N (Byte.to_N hi) + Z.of_N (Byte.to_N lo)
       = Tracker.Port Samples.leecher mod 65536.
Proof.
  apply (makeCompactPeers_record Samples.parseIPv4 Samples.parseIPv6 ""
           Samples.leecher); [reflexivity | reflexivity | cbn; lia].
Defined.

(** The leecher's record: 10.0.0.1 and the port 51413 = 0xc8d5. *)
Example makeCompactPeers_leecher :
  Tracker.makeCompactPeers Samples.parseIPv4 Samples.parseIPv6
    [Samples.leecher; Samples.peer_without_address; Samples.leecher]
    "-UT3550-000000000002"
  = [x0a; x00; x00; x01; xc8; xd5; x0a; x00; x00; x01; xc8; xd5].
Proof. reflexivity. Qed.

(** ** Peers made from a reply *)

(** [makePeer] returns the peer under the id it was asked for whenever it
    returns no error, whatever id the reply holds; and the peer it makes of a
    reply without values has no port, so that [makeCompactPeers] never
    writes it. *)
Theorem makePeer_PeerID
  (parseIPv4 parseIPv6 : string -> list byte) (skip_id : string)
  (t_first t_last : Z) (redis_reply : Tracker.Reply)
  (torrent_id : Z) (peer_id : string) :
  let made :=
    Tracker.makePeer t_first t_last redis_reply torrent_id peer_id in
  (snd made = None -> Tracker.PeerID (fst made) = peer_id)
  /\ (redis_reply = Tracker.ValuesNil \/ redis_reply = Tracker.ValuesError ->
      Tracker.Port (fst made) = 0
      /\ Tracker.Active (fst made) = false
      /\ Tracker.AnnounceFirst (fst made) = t_first
      /\ Tracker.AnnounceLast (fst made) = t_last
      /\ Tracker.makeCompactPeers parseIPv4 parseIPv6 [fst made] skip_id
         = []).
Proof.
  intros made. subst made. split.
  - destruct redis_reply; cbn; intros H; try discriminate H; reflexivity.
  - intros [-> | ->]; repeat split.
Qed.

(** ** Redis keys *)

Lemma append_inv_head (p a b : string) :
  (p ++ a)%string = (p ++ b)%string -> a = b.
Proof.
  induction p as [|c p IH]; cbn [String.append]; intros H.
  - exact H.
  - injection H as H. now apply IH.
Qed.

Lemma append_length (a b : string) :
  String.length (a ++ b) = (String.length a + String.length b)%nat.
Proof.
  induction a as [|c a IH]; cbn [String.append String.length].
  - reflexivity.
  - now rewrite IH.
Qed.

Lemma append_inv_tail (s : string) :
  forall a b : string, (a ++ s)%string = (b ++ s)%string -> a = b.
Proof.
  induction a as [|c a IH]; intros b H.
  - destruct b as [|d b]; [reflexivity|].
    apply (f_equal String.length) in H.
    cbn [String.append String.length] in H. rewrite append_length in H. lia.
  - destruct b as [|d b].
    + apply (f_equal String.length) in H.
      cbn [String.append String.length] in H. rewrite append_length in H. lia.
    + cbn [String.append] in H. injection H as -> H.
      f_equal. now apply IH.
Qed.

Lemma Fmt_d_inj (a b : Z) : 0 <= a -> 0 <= b -> Fmt.d a = Fmt.d b -> a = b.
Proof.
  unfold Fmt.d. intros Ha Hb H.
  apply (f_equal NilEmpty.uint_of_string) in H.
  rewrite !NilEmpty.usu in H. injection H as H.
  apply (f_equal N.of_uint) in H. rewrite !DecimalN.Unsigned.of_to in H.
  now apply Z2N.inj.
Qed.

(** The keys that [SetUserID] makes belong to the user: two peers with the
    same key of a kind have the same user id; and the four keys of a peer are
    different from each other. *)
Theorem SetUserID_keys
  (peer1 peer2 : Tracker.Peer) (user_id1 user_id2 : Z)
  (username1 username2 : string) :
  0 <= user_id1 -> 0 <= user_id2 ->
  let p1 := Tracker.SetUserID peer1 user_id1 username1 in
  let p2 := Tracker.SetUserID peer2 user_id2 username2 in
  (Tracker.KeyUserActive p1 = Tracker.KeyUserActive p2
   \/ Tracker.KeyUserIncomplete p1 = Tracker.KeyUserIncomplete p2
   \/ Tracker.KeyUserComplete p1 = Tracker.KeyUserComplete p2
   \/ Tracker.KeyUserHNR p1 = Tracker.KeyUserHNR p2 ->
   user_id1 = user_id2)
  /\ Tracker.KeyUserActive p1 <> Tracker.KeyUserIncomplete p1
  /\ Tracker.KeyUserActive p1 <> Tracker.KeyUserComplete p1
  /\ Tracker.KeyUserActive p1 <> Tracker.KeyUserHNR p1
  /\ Tracker.KeyUserIncomplete p1 <> Tracker.KeyUserComplete p1
  /\ Tracker.KeyUserIncomplete p1 <> Tracker.KeyUserHNR p1
  /\ Tracker.KeyUserComplete p1 <> Tracker.KeyUserHNR p1.
Proof.
  intros H1 H2 p1 p2. subst p1 p2. cbn. split.
  - intros H.
    apply Fmt_d_inj; try assumption.
    destruct H as [H | [H | [H | H]]];
      apply (append_inv_head "t:u:") in H;
      now apply append_inv_tail in H.
  - repeat split; intros H;
      apply (append_inv_head "t:u:") in H;
      apply append_inv_head in H; discriminate H.
Qed.

Lemma SetUserID_keys_sample :
  let p1 := Tracker.SetUserID Samples.leecher 1 "alice" in
  let p2 := Tracker.SetUserID Samples.peer_without_address 2 "bob" in
  (Tracker.KeyUserActive p1 = Tracker.KeyUserActive p2
   \/ Tracker.KeyUserIncomplete p1 = Tracker.KeyUserIncomplete p2
   \/ Tracker.KeyUserComplete p1 = Tracker.KeyUserComplete p2
   \/ Tracker.KeyUserHNR p1 = Tracker.KeyUserHNR p2 ->
   1 = 2)
  /\ Tracker.KeyUserActive p1 <> Tracker.KeyUserIncomplete p1
  /\ Tracker.KeyUserActive p1 <> Tracker.KeyUserComplete p1
  /\ Tracker.KeyUserActive p1 <> Tracker.KeyUserHNR p1
  /\ Tracker.KeyUserIncomplete p1 <> Tracker.KeyUserComplete p1
  /\ Tracker.KeyUserIncomplete p1 <> Tracker.KeyUserHNR p1
  /\ Tracker.KeyUserComplete p1 <> Tracker.KeyUserHNR p1.
Proof.
  apply (SetUserID_keys Samples.leecher Samples.peer_without_address 1 2
           "alice" "bob"); lia.
Defined.

(** [DelPeer] never addresses the set that [AddPeer] fills and [GetPeers]
    reads: the key it makes with the verb [%s] is the key of no torrent, so
    that its result is the same on two connections that differ only in what
    they hold under the keys of the torrents' peer sets. *)
Theorem DelPeer_key_is_no_peers_key
  (Do Do' : string -> list string -> PeerStore.DoResult)
  (torrent_id torrent_id' : Z) (peer_id : string) :
  PeerStore.DelPeer_key torrent_id <> PeerStore.peers_key torrent_id'
  /\ ((forall command key args,
         (forall t, key <> PeerStore.peers_key t) ->
         Do command (key :: args) = Do' command (key :: args)) ->
      PeerStore.DelPeer Do torrent_id peer_id
      = PeerStore.DelPeer Do' torrent_id peer_id).
Proof.
  assert (Hkey : forall t t',
            PeerStore.DelPeer_key t <> PeerStore.peers_key t').
  { intros t t' H. unfold PeerStore.DelPeer_key, PeerStore.peers_key in H.
    apply (append_inv_head "t:t:") in H.
    unfold Fmt.bad_s_uint64, Fmt.d in H.
    destruct (N.to_uint (Z.to_N t')) as [|u|u|u|u|u|u|u|u|u|u];
      cbn in H; discriminate H. }
  split; [apply Hkey|].
  intros Hsame. unfold PeerStore.DelPeer.
  rewrite (Hsame "SREM"%string (PeerStore.DelPeer_key torrent_id) [peer_id]).
  - reflexivity.
  - intros t. apply Hkey.
Qed.

(** The two keys of torrent 5. *)
Example keys_of_torrent_5 :
  PeerStore.peers_key 5 = "t:t:5:p"%string
  /\ PeerStore.DelPeer_key 5 = "t:t:%!s(uint64=5):p"%string.
Proof. split; reflexivity. Qed.

(** ** Sequences of announces *)

Lemma u64_add_l (a b : Z) : Int.u64 (Int.u64 a + b) = Int.u64 (a + b).
Proof. unfold Int.u64. now rewrite Zplus_mod_idemp_l. Qed.

Section UpdateAllFacts.

Import Tracker.

Variable config : Config.
Variable estSpeed : Z -> Z -> Z -> float.
Variable IP_String : list byte -> string.

Local Notation "'run'" := (UpdateAll config estSpeed IP_String).
Local Notation "'totals'" := (UpdateTotals config estSpeed IP_String).

Lemma UpdateAll_Announces (peer : Peer)
  (announces : list (Z * Z * Ann.AnnounceRequest)) :
  Int.is_u64 (Announces peer) ->
  Announces (run peer announces)
  = Int.u64 (Announces peer + Z.of_nat (length announces)).
Proof.
  intros Hwf.
  induction announces as [|[[cur_time now] announce] announces IH]
    using rev_ind.
  - cbn. rewrite Z.add_0_r. symmetry. now apply u64_id.
  - rewrite UpdateAll_snoc. cbn [Update fst Announces].
    rewrite IH, u64_add_l, length_app. cbn [length].
    f_equal. lia.
Qed.

Lemma UpdateAll_frame (peer : Peer)
  (announces : list (Z * Z * Ann.AnnounceRequest)) :
  AnnounceLast (run peer announces) = AnnounceLast peer
  /\ AnnounceFirst (run peer announces) = AnnounceFirst peer
  /\ Active (run peer announces) = Active peer
  /\ UserID (run peer announces) = UserID peer
  /\ TorrentID (run peer announces) = TorrentID peer
  /\ KeyPeer (run peer announces) = KeyPeer peer.
Proof.
  induction announces as [|[[cur_time now] announce] announces IH]
    using rev_ind.
  - repeat split.
  - rewrite UpdateAll_snoc. cbn [Update fst AnnounceLast AnnounceFirst
      Active UserID TorrentID KeyPeer]. exact IH.
Qed.

Lemma UpdateAll_TotalTime_idle (peer : Peer)
  (announces : list (Z * Z * Ann.AnnounceRequest)) :
  Active peer = false \/ AnnounceLast peer <= 0 ->
  TotalTime (run peer announces) = TotalTime peer.
Proof.
  intros Hidle.
  induction announces as [|[[cur_time now] announce] announces IH]
    using rev_ind.
  - reflexivity.
  - rewrite UpdateAll_snoc. cbn [Update fst TotalTime].
    destruct (UpdateAll_frame peer announces) as (Hl & _ & Ha & _).
    rewrite Hl, Ha, IH.
    destruct Hidle as [-> | Hle]; [reflexivity|].
    assert (Hb : (AnnounceLast peer >? 0) = false).
    { rewrite Z.gtb_ltb. apply Z.ltb_ge. exact Hle. }
    rewrite Hb. now rewrite andb_false_r.
Qed.

Lemma UpdateTotals_from (announces : list (Z * Z * Ann.AnnounceRequest)) :
  forall (peer : Peer) (up dn : Z),
    Int.is_u64 (Uploaded peer) -> Int.is_u64 (Downloaded peer) ->
    reports_grow (Uploaded peer) (Downloaded peer) announces ->
    let r :=
      fold_left
        (fun acc '(cur_time, now, announce) =>
           let r :=
             Update config estSpeed IP_String cur_time now (fst acc) announce
           in
           (fst r,
            (fst (snd acc) + fst (snd r), snd (snd acc) + snd (snd r))))
        announces (peer, (up, dn)) in
    fst (snd r) = up + (Uploaded (fst r) - Uploaded peer)
    /\ snd (snd r) = dn + (Downloaded (fst r) - Downloaded peer).
Proof.
  induction announces as [|[[cur_time now] announce] announces IH];
    intros peer up dn Hu Hd Hgrow r; subst r.
  - cbn. lia.
  - cbn [reports_grow] in Hgrow.
    destruct Hgrow as (Hwf & Hul & Hdl & Hrest).
    cbn [fold_left]. cbv beta iota. cbn [fst snd].
    pose proof (Update_deltas config estSpeed IP_String cur_time now
                  peer announce) as Hdelta.
    destruct Hwf as (Hau & Had & Hrest_wf).
    rewrite !u64_sub in Hdelta by assumption.
    apply Z.ltb_ge in Hul as Hb1. apply Z.ltb_ge in Hdl as Hb2.
    rewrite Hb1, Hb2 in Hdelta. rewrite Hdelta. cbn [fst snd].
    specialize (IH (fst (Update config estSpeed IP_String cur_time now
                           peer announce))
                  (up + (Ann.Uploaded announce - Uploaded peer))
                  (dn + (Ann.Downloaded announce - Downloaded peer))).
    cbn [Update fst Uploaded Downloaded] in IH.
    destruct IH as [IHu IHd]; try assumption.
    cbn [Update fst Uploaded Downloaded].
    split; [rewrite IHu | rewrite IHd]; lia.
Qed.

End UpdateAllFacts.

(** Along every sequence of announces, [Update] counts the announces (in 64
    bits) and leaves alone the two timestamps, the active flag and the peer's
    user, torrent and key; the time counter of a peer that is not active, or
    has no positive time of last announce, stays as it is. *)
Theorem UpdateAll_keeps
  (config : Tracker.Config) (estSpeed : Z -> Z -> Z -> float)
  (IP_String : list byte -> string) (peer : Tracker.Peer)
  (announces : list (Z * Z * Tracker.Ann.AnnounceRequest)) :
  Int.is_u64 (Tracker.Announces peer) ->
  let peer' := Tracker.UpdateAll config estSpeed IP_String peer announces in
  Tracker.Announces peer'
  = Int.u64 (Tracker.Announces peer + Z.of_nat (length announces))
  /\ Tracker.AnnounceLast peer' = Tracker.AnnounceLast peer
  /\ Tracker.AnnounceFirst peer' = Tracker.AnnounceFirst peer
  /\ Tracker.Active peer' = Tracker.Active peer
  /\ Tracker.UserID peer' = Tracker.UserID peer
  /\ Tracker.TorrentID peer' = Tracker.TorrentID peer
  /\ Tracker.KeyPeer peer' = Tracker.KeyPeer peer
  /\ (Tracker.Active peer = false \/ Tracker.AnnounceLast peer <= 0 ->
      Tracker.TotalTime peer' = Tracker.TotalTime peer).
Proof.
  intros Hwf peer'. subst peer'.
  split; [now apply UpdateAll_Announces|].
  pose proof (UpdateAll_frame config estSpeed IP_String peer announces)
    as (H1 & H2 & H3 & H4 & H5 & H6).
  repeat split; try assumption.
  apply UpdateAll_TotalTime_idle.
Qed.

Lemma UpdateAll_keeps_leecher :
  let peer' :=
    Tracker.UpdateAll Samples.config Samples.estSpeed Samples.IP_String
      Samples.leecher
      [(1060, 1060, Samples.announce_more);
       (1120, 1120, Samples.announce_more)] in
  Tracker.Announces peer'
  = Int.u64 (Tracker.Announces Samples.leecher + Z.of_nat 2)
  /\ Tracker.AnnounceLast peer' = Tracker.AnnounceLast Samples.leecher
  /\ Tracker.AnnounceFirst peer' = Tracker.AnnounceFirst Samples.leecher
  /\ Tracker.Active peer' = Tracker.Active Samples.leecher
  /\ Tracker.UserID peer' = Tracker.UserID Samples.leecher
  /\ Tracker.TorrentID peer' = Tracker.TorrentID Samples.leecher
  /\ Tracker.KeyPeer peer' = Tracker.KeyPeer Samples.leecher
  /\ (Tracker.Active Samples.leecher = false
      \/ Tracker.AnnounceLast Samples.leecher <= 0 ->
      Tracker.TotalTime peer' = Tracker.TotalTime Samples.leecher).
Proof.
  apply (UpdateAll_keeps Samples.config Samples.estSpeed Samples.IP_String
           Samples.leecher
           [(1060, 1060, Samples.announce_more);
            (1120, 1120, Samples.announce_more)]).
  vm_compute. split; congruence.
Defined.

(** Along a sequence of announces whose reported totals never decrease, the
    deltas that [Update] returns add up to what the stored totals grew by:
    nothing is counted twice and nothing is lost. *)
Theorem UpdateTotals_telescope
  (config : Tracker.Config) (estSpeed : Z -> Z -> Z -> float)
  (IP_String : list byte -> string) (peer : Tracker.Peer)
  (announces : list (Z * Z * Tracker.Ann.AnnounceRequest)) :
  Int.is_u64 (Tracker.Uploaded peer) ->
  Int.is_u64 (Tracker.Downloaded peer) ->
  Tracker.reports_grow (Tracker.Uploaded peer) (Tracker.Downloaded peer)
    announces ->
  let r := Tracker.UpdateTotals config estSpeed IP_String peer announces in
  fst r = Tracker.UpdateAll config estSpeed IP_String peer announces
  /\ fst (snd r) = Tracker.Uploaded (fst r) - Tracker.Uploaded peer
  /\ snd (snd r) = Tracker.Downloaded (fst r) - Tracker.Downloaded peer.
Proof.
  intros Hu Hd Hgrow r. subst r. split.
  - clear Hu Hd Hgrow. unfold Tracker.UpdateTotals, Tracker.UpdateAll.
    generalize (0, 0). revert peer.
    induction announces as [|[[cur_time now] announce] announces IH];
      intros p acc; [reflexivity|].
    cbn [fold_left fst]. apply IH.
  - pose proof (UpdateTotals_from config estSpeed IP_String announces
                  peer 0 0 Hu Hd Hgrow) as H.
    cbv zeta in H. exact H.
Qed.

Lemma UpdateTotals_telescope_leecher :
  let r :=
    Tracker.UpdateTotals Samples.config Samples.estSpeed Samples.IP_String
      Samples.leecher
      [(1060, 1060, Samples.announce_more);
       (1120, 1120, Samples.announce_more)] in
  fst r = Tracker.UpdateAll Samples.config Samples.estSpeed
            Samples.IP_String Samples.leecher
            [(1060, 1060, Samples.announce_more);
             (1120, 1120, Samples.announce_more)]
  /\ fst (snd r) = Tracker.Uploaded (fst r) - Tracker.Uploaded Samples.leecher
  /\ snd (snd r)
     = Tracker.Downloaded (fst r) - Tracker.Downloaded Samples.leecher.
Proof.
  apply (UpdateTotals_telescope Samples.config Samples.estSpeed
           Samples.IP_String Samples.leecher
           [(1060, 1060, Samples.announce_more);
            (1120, 1120, Samples.announce_more)]);
    vm_compute; intuition congruence.
Defined.

(** ** The white list, continued *)

(** A client is accepted by two white lists put together exactly when one
    of them accepts it, so that adding prefixes never shuts out a client; and
    a white list with the empty prefix accepts every client. *)
Theorem IsValidClient_app
  (whitelist1 whitelist2 : list string) (peer_id : string) :
  Tracker.IsValidClient (whitelist1 ++ whitelist2) peer_id
  = Tracker.IsValidClient whitelist1 peer_id
    || Tracker.IsValidClient whitelist2 peer_id
  /\ Tracker.IsValidClient (whitelist1 ++ ""%string :: whitelist2) peer_id
     = true.
Proof.
  split.
  - rewrite !IsValidClient_existsb. apply existsb_app.
  - rewrite IsValidClient_existsb, existsb_app. cbn [existsb].
    assert (H : Strings.HasPrefix peer_id "" = true).
    { apply HasPrefix_iff. now exists peer_id. }
    rewrite H. cbn. apply orb_true_r.
Qed.

(** ** Witnesses of the bounds *)

Lemma IsHNR_past_leecher :
  Tracker.IsHNR Samples.config 5000 Samples.leecher = false.
Proof.
  apply (IsHNR_past Samples.config 5000 Samples.leecher); cbn; lia.
Defined.

Lemma makeCompactPeers_length_IPv4_leechers :
  length (Tracker.makeCompactPeers Samples.parseIPv4 Samples.parseIPv6
            [Samples.leecher; Samples.leecher] "")
  = (6 * length (filter (Tracker.written "")
                   [Samples.leecher; Samples.leecher]))%nat.
Proof.
  apply (makeCompactPeers_length_IPv4 Samples.parseIPv4 Samples.parseIPv6 ""
           [Samples.leecher; Samples.leecher]).
  reflexivity.
Defined.

Lemma makeCompactPeers_length_le_sample :
  (length (Tracker.makeCompactPeers Samples.parseIPv4 Samples.parseIPv6
             [Samples.leecher; Samples.peer_without_address] "")
   <= 6 * Nat.min 30 2)%nat.
Proof.
  apply (makeCompactPeers_length_le Samples.parseIPv4 Samples.parseIPv6 ""
           [Samples.leecher; Samples.peer_without_address] 30 2).
  cbn. lia.
Defined.

Lemma Update_deltas_max_leecher :
  snd (Tracker.Update Samples.config Samples.estSpeed Samples.IP_String
         1060 1060 Samples.leecher Samples.announce_more)
  = (Z.max 0 (Tracker.Ann.Uploaded Samples.announce_more
              - Tracker.Uploaded Samples.leecher),
     Z.max 0 (Tracker.Ann.Downloaded Samples.announce_more
              - Tracker.Downloaded Samples.leecher)).
Proof.
  apply (Update_deltas_max Samples.config Samples.estSpeed Samples.IP_String
           1060 1060 Samples.leecher Samples.announce_more);
    vm_compute; intuition congruence.
Defined.

Lemma GetPeers_length_sample :
  exists peers,
    PeerStore.GetPeers Samples.unixtime Samples.Receive
      (PeerStore.Members ["a"; "b"; "c"]%string) 2 = Some peers
    /\ Z.min (Z.of_nat (length ["a"; "b"; "c"]%string)) 2
       <= Z.of_nat (length peers)
       <= 2 * Z.min (Z.of_nat (length ["a"; "b"; "c"]%string)) 2.
Proof.
  apply (GetPeers_length Samples.unixtime Samples.Receive
           ["a"; "b"; "c"]%string 2).
  lia.
Defined.

(** ** The peer listing, continued *)

Section GetPeersCompact.

Import PeerStore.

Variable unixtime : nat -> Z.
Variable Receive : nat -> Received.
Variable parseIPv4 : string -> list byte.
Variable parseIPv6 : string -> list byte.

Local Notation "'write'" := (writeCompactPeer parseIPv4 parseIPv6).

Lemma receivePeers_app (n : nat) :
  forall (i k : nat) (peers : list Peer),
    receivePeers unixtime Receive n i k peers
    = peers ++ receivePeers unixtime Receive n i k [].
Proof.
  induction n as [|n IH]; intros i k peers; cbn [receivePeers].
  - now rewrite app_nil_r.
  - destruct (Receive i) as [|peer_reply]; [apply IH|].
    destruct (makePeer (unixtime k) (unixtime (S k)) peer_reply)
      as [peer [e|]]; [apply IH|].
    rewrite IH, (IH _ _ ([] ++ [peer])). now rewrite app_assoc.
Qed.

Lemma old_write_length (out_buf : list byte) (peer : Peer) :
  (length (write out_buf peer) <= length out_buf + 6)%nat.
Proof.
  unfold writeCompactPeer.
  destruct (Port peer <=? 0); [lia|].
  rewrite !length_app. cbn [length].
  destruct (To4_length (Net.ParseIP parseIPv4 parseIPv6 (IP peer)))
    as [H | H]; rewrite H; cbn [length]; lia.
Qed.

Lemma old_fold_length (peers : list Peer) :
  forall out_buf : list byte,
    (length (fold_left write peers out_buf)
     <= length out_buf + 6 * length peers)%nat.
Proof.
  induction peers as [|peer peers IH]; intros out_buf; cbn [fold_left length].
  - lia.
  - specialize (IH (write out_buf peer)).
    pose proof (old_write_length out_buf peer). lia.
Qed.

Lemma old_fold_zero (n : nat) :
  forall out_buf : list byte,
    fold_left write (repeat zeroPeer n) out_buf = out_buf.
Proof.
  induction n as [|n IH]; intros out_buf; [reflexivity|].
  cbn [repeat fold_left]. exact (IH out_buf).
Qed.

Lemma GetPeers_compact_length (peer_ids : list string) (max_peers : Z) :
  0 <= max_peers ->
  exists peers,
    GetPeers unixtime Receive (Members peer_ids) max_peers = Some peers
    /\ firstn (Z.to_nat (Z.min (Z.of_nat (length peer_ids)) max_peers)) peers
       = repeat zeroPeer
           (Z.to_nat (Z.min (Z.of_nat (length peer_ids)) max_peers))
    /\ Z.of_nat (length (makeCompactPeers parseIPv4 parseIPv6 peers))
       <= 6 * Z.min (Z.of_nat (length peer_ids)) max_peers.
Proof.
  intros Hmax. unfold GetPeers.
  set (known := if Z.of_nat (length peer_ids) >? max_peers
                then max_peers else Z.of_nat (length peer_ids)).
  assert (Hknown : known = Z.min (Z.of_nat (length peer_ids)) max_peers).
  { unfold known. rewrite Z.gtb_ltb.
    destruct (Z.ltb_spec max_peers (Z.of_nat (length peer_ids))); lia. }
  assert (Hpos : (known <? 0) = false) by (apply Z.ltb_ge; lia).
  rewrite Hpos, <- Hknown. eexists. split; [reflexivity|].
  rewrite receivePeers_app. split.
  - rewrite firstn_app, repeat_length, Nat.sub_diag, firstn_O, app_nil_r.
    rewrite <- (repeat_length zeroPeer (Z.to_nat known)) at 1.
    apply firstn_all.
  - unfold makeCompactPeers. rewrite fold_left_app, old_fold_zero.
    pose proof (old_fold_length
                  (receivePeers unixtime Receive (Z.to_nat known) 0 0 []) [])
      as Hlen.
    pose proof (receivePeers_length unixtime Receive (Z.to_nat known) 0 0 [])
      as Hn.
    cbn [length] in Hlen, Hn. lia.
Qed.

End GetPeersCompact.

(** The list that [GetPeers] returns starts with as many zero-valued peers
    as it was to read, and these have no port: the compact list made of it is
    of at most six bytes for each peer asked for, although the list itself
    may be twice as long. *)
Theorem GetPeers_compact
  (unixtime : nat -> Z) (Receive : nat -> PeerStore.Received)
  (parseIPv4 parseIPv6 : string -> list byte)
  (peer_ids : list string) (max_peers : Z) :
  0 <= max_peers ->
  exists peers,
    PeerStore.GetPeers unixtime Receive (PeerStore.Members peer_ids)
      max_peers = Some peers
    /\ firstn (Z.to_nat (Z.min (Z.of_nat (length peer_ids)) max_peers)) peers
       = repeat PeerStore.zeroPeer
           (Z.to_nat (Z.min (Z.of_nat (length peer_ids)) max_peers))
    /\ Z.of_nat (length (PeerStore.makeCompactPeers parseIPv4 parseIPv6
                           peers))
       <= 6 * Z.min (Z.of_nat (length peer_ids)) max_peers.
Proof. apply GetPeers_compact_length. Qed.

Lemma GetPeers_compact_sample :
  exists peers,
    PeerStore.GetPeers Samples.unixtime Samples.Receive
      (PeerStore.Members ["a"; "b"; "c"]%string) 2 = Some peers
    /\ firstn (Z.to_nat (Z.min (Z.of_nat (length ["a"; "b"; "c"]%string)) 2))
         peers
       = repeat PeerStore.zeroPeer
           (Z.to_nat (Z.min (Z.of_nat (length ["a"; "b"; "c"]%string)) 2))
    /\ Z.of_nat (length (PeerStore.makeCompactPeers Samples.parseIPv4
                           Samples.parseIPv6 peers))
       <= 6 * Z.min (Z.of_nat (length ["a"; "b"; "c"]%string)) 2.
Proof.
  apply (GetPeers_compact Samples.unixtime Samples.Receive
           Samples.parseIPv4 Samples.parseIPv6 ["a"; "b"; "c"]%string 2).
  lia.
Defined.

(** With a list of peer ids from the store, [GetPeers] panics exactly when
    [max_peers] is negative (the slice expression is out of range), also
    when the list is empty; on a failed or nil reply it returns nil whatever
    [max_peers] is. *)
Theorem GetPeers_panics
  (unixtime : nat -> Z) (Receive : nat -> PeerStore.Received)
  (peer_ids : list string) (max_peers : Z) :
  (PeerStore.GetPeers unixtime Receive (PeerStore.Members peer_ids) max_peers
   = None <-> max_peers < 0)
  /\ PeerStore.GetPeers unixtime Receive PeerStore.DoError max_peers
     = Some []
  /\ PeerStore.GetPeers unixtime Receive PeerStore.NilReply max_peers
     = Some []
  /\ PeerStore.GetPeers unixtime Receive PeerStore.StringsError max_peers
     = Some [].
Proof.
  split; [|repeat split].
  unfold PeerStore.GetPeers. rewrite Z.gtb_ltb.
  destruct (Z.ltb_spec max_peers (Z.of_nat (length peer_ids))) as [Hlt | Hge].
  - destruct (Z.ltb_spec max_peers 0) as [Hneg | Hpos].
    + split; [intros _; exact Hneg | reflexivity].
    + split; [discriminate | lia].
  - destruct (Z.ltb_spec (Z.of_nat (length peer_ids)) 0) as [Hneg | Hpos].
    + lia.
    + split; [discriminate | lia].
Qed.

(** ** Announce times *)

Lemma sum_times (times : list Z) (lo hi : Z) :
  Forall (fun v => lo <= v <= hi) times -> 0 <= lo ->
  (forall acc : Z,
     0 <= acc -> acc + Metrics.sum_of_times times < 2 ^ 63 ->
     fold_left (fun t v => Int.i64 (t + v)) times acc
     = acc + Metrics.sum_of_times times)
  /\ Z.of_nat (length times) * lo <= Metrics.sum_of_times times
     <= Z.of_nat (length times) * hi.
Proof.
  intros Hall Hlo.
  induction Hall as [|v times Hv Hall [IHfold IHsum]].
  - split; [intros acc _ _; cbn; lia | cbn; lia].
  - cbn [Metrics.sum_of_times fold_right] in *.
    fold (Metrics.sum_of_times times) in *.
    split.
    + intros acc Hacc Hfit. cbn [fold_left].
      rewrite i64_id by (unfold Int.is_i64; lia).
      rewrite IHfold by lia. lia.
    + cbn [length]. rewrite Nat2Z.inj_succ. nia.
Qed.

(** The average that [avgExecTime] returns lies between the smallest and
    the largest of the times recorded, where these are not negative and their
    sum fits in 63 bits; the list of times is empty afterwards. *)
Theorem avgExecTime_between (times : list Z) (lo hi : Z) :
  times <> [] -> Forall (fun v => lo <= v <= hi) times -> 0 <= lo ->
  Metrics.sum_of_times times < 2 ^ 63 ->
  lo <= fst (Metrics.avgExecTime times) <= hi
  /\ snd (Metrics.avgExecTime times) = [].
Proof.
  intros Hne Hall Hlo Hfit.
  destruct (sum_times times lo hi Hall Hlo) as [Hfold Hbounds].
  unfold Metrics.avgExecTime. rewrite (Hfold 0) by lia.
  assert (Hn : 0 < Z.of_nat (length times)).
  { destruct times; [contradiction | cbn [length]; lia]. }
  apply Z.gtb_lt in Hn as Hb. rewrite Hb. cbn [fst snd].
  split; [|reflexivity].
  assert (Hs : 0 <= Metrics.sum_of_times times) by nia.
  rewrite Z.add_0_l, Z.quot_div_nonneg by lia.
  assert (Hq : lo <= Metrics.sum_of_times times / Z.of_nat (length times)
               <= hi).
  { split.
    - apply Z.div_le_lower_bound; lia.
    - apply Z.div_le_upper_bound; lia. }
  rewrite i64_id; [exact Hq|].
  unfold Int.is_i64.
  assert (Hle : Metrics.sum_of_times times / Z.of_nat (length times)
                <= Metrics.sum_of_times times).
  { apply Z.div_le_upper_bound; [lia | nia]. }
  lia.
Qed.

(** One short and one very long announce: the sum is below [2^63] though
    twice the longer time is not. *)
Example avgExecTime_uneven :
  Metrics.avgExecTime [1; 2 ^ 62] = (2 ^ 61, []).
Proof. reflexivity. Qed.

Lemma avgExecTime_between_sample :
  1000 <= fst (Metrics.avgExecTime [1000; 3000; 2500]) <= 3000
  /\ snd (Metrics.avgExecTime [1000; 3000; 2500]) = [].
Proof.
  apply (avgExecTime_between [1000; 3000; 2500] 1000 3000).
  - discriminate.
  - repeat constructor; lia.
  - lia.
  - cbn. lia.
Defined.

(** A read of the metrics empties the list of announce times: the read
    that follows at once reports an average of 0, and a read after one more
    announce reports the time of that announce alone.  Recording a time
    changes no counter, of the announces or of the caches. *)
Theorem Get_drains_times (c : Metrics.Counters) (t : Z) :
  Int.is_i64 t ->
  let c1 := snd (Metrics.Get c) in
  Metrics.AnnounceExecTimesNs c1 = []
  /\ Metrics.m_AnnounceExecTimesNsAvg (fst (Metrics.Get c1)) = 0
  /\ Metrics.m_AnnounceExecTimesNsAvg
       (fst (Metrics.Get (Metrics.AddAnnounceTime t c1))) = t
  /\ Metrics.AnnounceTotal (Metrics.AddAnnounceTime t c)
     = Metrics.AnnounceTotal c
  /\ Metrics.AnnounceStatusOK (Metrics.AddAnnounceTime t c)
     = Metrics.AnnounceStatusOK c
  /\ Metrics.AnnounceStatusUnauthorized (Metrics.AddAnnounceTime t c)
     = Metrics.AnnounceStatusUnauthorized c
  /\ Metrics.AnnounceStatusInvalidInfoHash (Metrics.AddAnnounceTime t c)
     = Metrics.AnnounceStatusInvalidInfoHash c
  /\ Metrics.AnnounceStatusMalformed (Metrics.AddAnnounceTime t c)
     = Metrics.AnnounceStatusMalformed c
  /\ Metrics.TorrentsTotalCached (Metrics.AddAnnounceTime t c)
     = Metrics.TorrentsTotalCached c
  /\ Metrics.UsersTotalCached (Metrics.AddAnnounceTime t c)
     = Metrics.UsersTotalCached c
  /\ Metrics.PeersTotalCached (Metrics.AddAnnounceTime t c)
     = Metrics.PeersTotalCached c
  /\ Metrics.AnnounceExecTimesNs (Metrics.AddAnnounceTime t c)
     = Metrics.AnnounceExecTimesNs c ++ [t].
Proof.
  intros Ht c1.
  assert (H1 : Metrics.AnnounceExecTimesNs c1 = []).
  { subst c1. unfold Metrics.Get, Metrics.avgExecTime.
    destruct (Metrics.AnnounceExecTimesNs c) as [|v l] eqn:E; reflexivity. }
  split; [exact H1|]. split; [|split; [|repeat split]].
  - unfold Metrics.Get. rewrite H1. reflexivity.
  - unfold Metrics.Get, Metrics.AddAnnounceTime.
    cbn [Metrics.AnnounceExecTimesNs]. rewrite H1.
    cbn [app Metrics.avgExecTime fold_left length Z.of_nat].
    unfold Metrics.avgExecTime. cbn [fold_left length].
    rewrite Z.add_0_l, (i64_id t Ht).
    cbn [Z.of_nat Pos.of_succ_nat Z.gtb Z.compare fst
         Metrics.m_AnnounceExecTimesNsAvg].
    rewrite Z.quot_1_r. now apply i64_id.
Qed.

Lemma Get_drains_times_sample :
  let c1 := snd (Metrics.Get (Metrics.AddAnnounceTime 700 Samples.counted)) in
  Metrics.AnnounceExecTimesNs c1 = []
  /\ Metrics.m_AnnounceExecTimesNsAvg (fst (Metrics.Get c1)) = 0
  /\ Metrics.m_AnnounceExecTimesNsAvg
       (fst (Metrics.Get (Metrics.AddAnnounceTime 1500 c1))) = 1500
  /\ Metrics.AnnounceTotal
       (Metrics.AddAnnounceTime 1500
          (Metrics.AddAnnounceTime 700 Samples.counted))
     = Metrics.AnnounceTotal (Metrics.AddAnnounceTime 700 Samples.counted)
  /\ Metrics.AnnounceStatusOK
       (Metrics.AddAnnounceTime 1500
          (Metrics.AddAnnounceTime 700 Samples.counted))
     = Metrics.AnnounceStatusOK (Metrics.AddAnnounceTime 700 Samples.counted)
  /\ Metrics.AnnounceStatusUnauthorized
       (Metrics.AddAnnounceTime 1500
          (Metrics.AddAnnounceTime 700 Samples.counted))
     = Metrics.AnnounceStatusUnauthorized
         (Metrics.AddAnnounceTime 700 Samples.counted)
  /\ Metrics.AnnounceStatusInvalidInfoHash
       (Metrics.AddAnnounceTime 1500
          (Metrics.AddAnnounceTime 700 Samples.counted))
     = Metrics.AnnounceStatusInvalidInfoHash
         (Metrics.AddAnnounceTime 700 Samples.counted)
  /\ Metrics.AnnounceStatusMalformed
       (Metrics.AddAnnounceTime 1500
          (Metrics.AddAnnounceTime 700 Samples.counted))
     = Metrics.AnnounceStatusMalformed
         (Metrics.AddAnnounceTime 700 Samples.counted)
  /\ Metrics.TorrentsTotalCached
       (Metrics.AddAnnounceTime 1500
          (Metrics.AddAnnounceTime 700 Samples.counted))
     = Metrics.TorrentsTotalCached
         (Metrics.AddAnnounceTime 700 Samples.counted)
  /\ Metrics.UsersTotalCached
       (Metrics.AddAnnounceTime 1500
          (Metrics.AddAnnounceTime 700 Samples.counted))
     = Metrics.UsersTotalCached (Metrics.AddAnnounceTime 700 Samples.counted)
  /\ Metrics.PeersTotalCached
       (Metrics.AddAnnounceTime 1500
          (Metrics.AddAnnounceTime 700 Samples.counted))
     = Metrics.PeersTotalCached (Metrics.AddAnnounceTime 700 Samples.counted)
  /\ Metrics.AnnounceExecTimesNs
       (Metrics.AddAnnounceTime 1500
          (Metrics.AddAnnounceTime 700 Samples.counted))
     = Metrics.AnnounceExecTimesNs
         (Metrics.AddAnnounceTime 700 Samples.counted) ++ [1500].
Proof.
  apply (Get_drains_times (Metrics.AddAnnounceTime 700 Samples.counted) 1500).
  vm_compute. split; congruence.
Defined.

(** ** The admin API *)

Lemma InfoHashFromHex_None (infoHash : Store.InfoHash) (h : string) :
  snd (Store.InfoHashFromHex infoHash h) = None
  <-> String.length h = 40%nat /\ Hex.is_hex_string h = true.
Proof.
  unfold Store.InfoHashFromHex, Hex.DecodeString.
  destruct (Nat.eqb_spec (String.length h) 40) as [H40 | Hn40]; cbn [negb].
  - destruct (Hex.Decode h) as [bs | e] eqn:Hdec; cbn [snd].
    + split; [intros _ | reflexivity]. split; [exact H40|].
      now destruct (Decode_inl (String.length h) h bs (le_n _) Hdec).
    + split; [discriminate|]. intros [_ Hhex].
      destruct (Decode_hex_string 20 h H40 Hhex) as [bs [Hbs _]].
      congruence.
  - cbn [snd]. split; [discriminate | intros [H _]; contradiction].
Qed.

Lemma clamp_not_negative (x : float) :
  PrimFloat.ltb (if PrimFloat.ltb x 0 then 0%float else x) 0 = false.
Proof. destruct (PrimFloat.ltb x 0) eqn:E; [reflexivity | exact E]. Qed.

(** [torrentAdd] hands a torrent to the store exactly when the body is read
    and its info hash is a text of forty hexadecimal digits, and answers 400
    otherwise.  The torrent handed over has that info hash and no multiplier
    below zero; whatever the request says it has no release name and is not
    enabled.  The answer is 200 when the store adds it, 409 for a duplicate
    and 400 for another failure. *)
Theorem torrentAdd_torrent (body : option Admin.TorrentAddRequest)
  (Add : Torrents.Torrent -> Admin.AddResult) :
  let r := Admin.torrentAdd body Add in
  (snd r <> None
   <-> exists req, body = Some req
                   /\ String.length (Admin.InfoHash req) = 40%nat
                   /\ Hex.is_hex_string (Admin.InfoHash req) = true)
  /\ (snd r = None -> fst r = 400)
  /\ (forall req t, body = Some req -> snd r = Some t ->
      Store.InfoHashFromHex (Store.zeros 20) (Admin.InfoHash req)
      = (Torrents.InfoHash t, None)
      /\ PrimFloat.ltb (Torrents.MultiUp t) 0 = false
      /\ PrimFloat.ltb (Torrents.MultiDn t) 0 = false
      /\ Torrents.ReleaseName t = ""%string
      /\ Torrents.IsEnabled t = false
      /\ fst r = match Add t with
                 | Admin.Added => 200
                 | Admin.ErrDuplicate => 409
                 | Admin.AddFailed => 400
                 end).
Proof.
  intros r. subst r. unfold Admin.torrentAdd.
  destruct body as [req|].
  - pose proof (InfoHashFromHex_None (Store.zeros 20) (Admin.InfoHash req))
      as Hiff.
    destruct (Store.InfoHashFromHex (Store.zeros 20) (Admin.InfoHash req))
      as [ih [e|]] eqn:Hhex; cbn [snd] in Hiff.
    + cbn [fst snd]. split; [|split].
      * split; [congruence|].
        intros [req' [Hreq Hok]]. injection Hreq as <-.
        apply Hiff in Hok. discriminate Hok.
      * reflexivity.
      * intros req' t _ H. discriminate H.
    + split; [|split].
      * split.
        -- intros _. exists req. split; [reflexivity|]. now apply Hiff.
        -- intros _. destruct (Add _); cbn [snd]; discriminate.
      * intros H. destruct (Add _); cbn [snd] in H; discriminate H.
      * intros req' t Hreq Ht. injection Hreq as <-.
        set (t0 := {| Torrents.InfoHash := ih |}) in *.
        assert (Ht0 : t = t0)
          by (destruct (Add t0); cbn [snd] in Ht; congruence).
        subst t. split; [exact Hhex|].
        split; [apply clamp_not_negative|].
        split; [apply clamp_not_negative|].
        split; [reflexivity|]. split; [reflexivity|].
        destruct (Add t0); reflexivity.
  - cbn [fst snd]. split; [|split].
    + split; [congruence | intros [req [H _]]; discriminate H].
    + reflexivity.
    + intros req t H. discriminate H.
Qed.

Section UpdateKeys.

Variable tup : TorrentUpdates.TorrentUpdate.

Lemma fold_updateKey_field {A : Type} (f : Torrents.Torrent -> A)
  (name : string) (v : A) :
  (forall t k, f (Admin.updateKey tup t k)
               = if String.eqb k name then v else f t) ->
  forall keys t,
    f (fold_left (Admin.updateKey tup) keys t)
    = if in_dec string_dec name keys then v else f t.
Proof.
  intros Hstep. induction keys as [|k keys IH]; intros t.
  - reflexivity.
  - cbn [fold_left]. rewrite IH, Hstep.
    destruct (in_dec string_dec name keys) as [Hin | Hnin];
      destruct (in_dec string_dec name (k :: keys)) as [Hin' | Hnin'];
      try reflexivity.
    + exfalso. apply Hnin'. now right.
    + destruct Hin' as [-> | Hin']; [|contradiction].
      now rewrite String.eqb_refl.
    + destruct (String.eqb_spec k name) as [-> | _]; [|reflexivity].
      exfalso. apply Hnin'. now left.
Qed.

Lemma fold_updateKey_frame {A : Type} (f : Torrents.Torrent -> A) :
  (forall t k, f (Admin.updateKey tup t k) = f t) ->
  forall keys t, f (fold_left (Admin.updateKey tup) keys t) = f t.
Proof.
  intros Hstep. induction keys as [|k keys IH]; intros t; [reflexivity|].
  cbn [fold_left]. now rewrite IH, Hstep.
Qed.

End UpdateKeys.

(** [torrentUpdate] hands to the store only a torrent that the store gave
    for the info hash of the path, with a request that names at least one
    key.  Of that torrent the fields whose key is named are those of the
    request and the others are as they were; the info hash, the release name
    (for which there is no key) and the counters are never changed.  The
    answer is 200 when the store accepts the torrent and 400 when not. *)
Theorem torrentUpdate_torrent (ihStr : string)
  (Get : Store.InfoHash -> Admin.GetResult)
  (body : option TorrentUpdates.TorrentUpdate)
  (Update : Torrents.Torrent -> bool) (t' : Torrents.Torrent) :
  snd (Admin.torrentUpdate ihStr Get body Update) = Some t' ->
  exists ih t tup,
    Store.InfoHashFromHex (Store.zeros 20) ihStr = (ih, None)
    /\ Get ih = Admin.Got t /\ body = Some tup
    /\ TorrentUpdates.Keys tup <> []
    /\ fst (Admin.torrentUpdate ihStr Get body Update)
       = Some (if Update t' then 200 else 400)
    /\ Torrents.IsDeleted t'
       = (if in_dec string_dec "is_deleted"%string (TorrentUpdates.Keys tup)
          then TorrentUpdates.IsDeleted tup else Torrents.IsDeleted t)
    /\ Torrents.IsEnabled t'
       = (if in_dec string_dec "is_enabled"%string (TorrentUpdates.Keys tup)
          then TorrentUpdates.IsEnabled tup else Torrents.IsEnabled t)
    /\ Torrents.Reason t'
       = (if in_dec string_dec "reason"%string (TorrentUpdates.Keys tup)
          then TorrentUpdates.Reason tup else Torrents.Reason t)
    /\ Torrents.MultiUp t'
       = (if in_dec string_dec "multi_up"%string (TorrentUpdates.Keys tup)
          then TorrentUpdates.MultiUp tup else Torrents.MultiUp t)
    /\ Torrents.MultiDn t'
       = (if in_dec string_dec "multi_dn"%string (TorrentUpdates.Keys tup)
          then TorrentUpdates.MultiDn tup else Torrents.MultiDn t)
    /\ Torrents.InfoHash t' = Torrents.InfoHash t
    /\ Torrents.ReleaseName t' = Torrents.ReleaseName t
    /\ Torrents.Snatches t' = Torrents.Snatches t
    /\ Torrents.Uploaded t' = Torrents.Uploaded t
    /\ Torrents.Downloaded t' = Torrents.Downloaded t
    /\ Torrents.Announces t' = Torrents.Announces t
    /\ Torrents.Seeders t' = Torrents.Seeders t
    /\ Torrents.Leechers t' = Torrents.Leechers t.
Proof.
  unfold Admin.torrentUpdate, Admin.infoHashFromCtx_hex.
  destruct (String.eqb ihStr ""); [discriminate|].
  destruct (Store.InfoHashFromHex (Store.zeros 20) ihStr) as [ih [e|]];
    [discriminate|].
  destruct (Get ih) as [t| |] eqn:Hget; try discriminate.
  destruct body as [tup|]; [|discriminate].
  destruct (TorrentUpdates.Keys tup) as [|k keys] eqn:Hkeys;
    [discriminate|].
  cbn [length Nat.eqb]. rewrite <- Hkeys.
  set (t1 := fold_left (Admin.updateKey tup) (TorrentUpdates.Keys tup) t).
  intros H.
  assert (Ht : t' = t1) by (destruct (Update t1); cbn [snd] in H; congruence).
  subst t'. exists ih, t, tup.
  split; [reflexivity|]. split; [exact Hget|]. split; [reflexivity|].
  split; [rewrite Hkeys; discriminate|].
  split; [destruct (Update t1); reflexivity|].
  unfold t1.
  repeat split;
    solve [ apply fold_updateKey_field; reflexivity
          | apply fold_updateKey_frame; reflexivity ].
Qed.

Lemma torrentUpdate_torrent_retire :
  exists ih t tup,
    Store.InfoHashFromHex (Store.zeros 20) Samples.hex40 = (ih, None)
    /\ Samples.Get ih = Admin.Got t /\ Some Samples.retire = Some tup
    /\ TorrentUpdates.Keys tup <> []
    /\ fst (Admin.torrentUpdate Samples.hex40 Samples.Get
              (Some Samples.retire) Samples.Update)
       = Some (if Samples.Update Samples.retired then 200 else 400)
    /\ Torrents.IsDeleted Samples.retired
       = (if in_dec string_dec "is_deleted"%string (TorrentUpdates.Keys tup)
          then TorrentUpdates.IsDeleted tup else Torrents.IsDeleted t)
    /\ Torrents.IsEnabled Samples.retired
       = (if in_dec string_dec "is_enabled"%string (TorrentUpdates.Keys tup)
          then TorrentUpdates.IsEnabled tup else Torrents.IsEnabled t)
    /\ Torrents.Reason Samples.retired
       = (if in_dec string_dec "reason"%string (TorrentUpdates.Keys tup)
          then TorrentUpdates.Reason tup else Torrents.Reason t)
    /\ Torrents.MultiUp Samples.retired
       = (if in_dec string_dec "multi_up"%string (TorrentUpdates.Keys tup)
          then TorrentUpdates.MultiUp tup else Torrents.MultiUp t)
    /\ Torrents.MultiDn Samples.retired
       = (if in_dec string_dec "multi_dn"%string (TorrentUpdates.Keys tup)
          then TorrentUpdates.MultiDn tup else Torrents.MultiDn t)
    /\ Torrents.InfoHash Samples.retired = Torrents.InfoHash t
    /\ Torrents.ReleaseName Samples.retired = Torrents.ReleaseName t
    /\ Torrents.Snatches Samples.retired = Torrents.Snatches t
    /\ Torrents.Uploaded Samples.retired = Torrents.Uploaded t
    /\ Torrents.Downloaded Samples.retired = Torrents.Downloaded t
    /\ Torrents.Announces Samples.retired = Torrents.Announces t
    /\ Torrents.Seeders Samples.retired = Torrents.Seeders t
    /\ Torrents.Leechers Samples.retired = Torrents.Leechers t.
Proof.
  apply (torrentUpdate_torrent Samples.hex40 Samples.Get
           (Some Samples.retire) Samples.Update Samples.retired).
  reflexivity.
Defined.
